(** * boringcode.dev: the install-prompt controller and the repository browser

  A shallow embedding of the two client components of the site:
  - [PWAInstall] (the "add to home screen" banner), and
  - [GitHubOrg] (the organisation repository list),
  together with the properties of their behaviour.

  React state is a record of the three [useState] cells; an event handler
  is a computation over the component's world (state cells, [localStorage],
  the console, the listeners registered on [window]) that either completes
  normally or throws.  State written before a throw stays written: a
  [setState] that ran is not rolled back by a later exception. *)

From stdpp Require Import gmap strings list sorting.
From Stdlib Require Import ZArith.

Local Open Scope string_scope.

(** ** The JavaScript host *)

Module JS.

(** A thrown value: an [Error] object (with its name and message) or any
    other value. *)
Inductive Thrown :=
| ErrorObject (name message : string)
| OtherValue (shown : string).

(** How a statement ends. *)
Inductive Completion (A : Type) :=
| Normal (a : A)
| Throw (e : Thrown).
Arguments Normal {A} a.
Arguments Throw {A} e.

(** How a promise settles. *)
Inductive Settled (A : Type) :=
| Fulfilled (a : A)
| Rejected (e : Thrown).
Arguments Fulfilled {A} a.
Arguments Rejected {A} e.

(** A computation over a store [S] that completes normally or throws; what
    it wrote to the store before throwing stays written. *)
Definition Eff (S A : Type) : Type := S → Completion A * S.

#[global] Instance Eff_ret {S} : MRet (Eff S) := λ A a w, (Normal a, w).

#[global] Instance Eff_bind {S} : MBind (Eff S) := λ A B k m w,
  match m w with
  | (Normal a, w') => k a w'
  | (Throw e, w') => (Throw e, w')
  end.

Definition throw {S A} (e : Thrown) : Eff S A := λ w, (Throw e, w).

Definition try_catch {S A} (body : Eff S A) (handler : Thrown → Eff S A) : Eff S A :=
  λ w, match body w with
       | (Normal a, w') => (Normal a, w')
       | (Throw e, w') => handler e w'
       end.

Definition try_finally {S A} (body : Eff S A) (finalizer : Eff S unit) : Eff S A :=
  λ w, match body w with
       | (c, w') =>
           match finalizer w' with
           | (Normal _, w'') => (c, w'')
           | (Throw e, w'') => (Throw e, w'')
           end
       end.

(** [await p] for a promise that settles as [p]. *)
Definition await {S A} (p : Settled A) : Eff S A :=
  λ w, match p with
       | Fulfilled a => (Normal a, w)
       | Rejected e => (Throw e, w)
       end.

(** [!v] for [v : string | null]: null and the empty string are falsy. *)
Definition falsy (v : option string) : bool :=
  match v with
  | None => true
  | Some "" => true
  | Some _ => false
  end.

(** [s.includes(sub)]: [sub] occurs in [s] at some position. *)
Fixpoint includes (s sub : string) : bool :=
  String.prefix sub s ||
  match s with
  | EmptyString => false
  | String _ s' => includes s' sub
  end.

(** [sub] is a substring of [s]. *)
Definition isSubstring (sub s : string) : Prop :=
  ∃ pre post, s = pre ++ sub ++ post.

(** *** Web Storage *)

(** Whether the store can be used: a store over quota throws on every
    write, a store the user agent denies access to throws on every use. *)
Inductive StorageHealth := Healthy | QuotaExceeded | AccessDenied.

Record Storage := {
  items : gmap string string;
  health : StorageHealth
}.

Definition QuotaExceededError : Thrown :=
  ErrorObject "QuotaExceededError" "The quota has been exceeded.".
Definition SecurityError : Thrown :=
  ErrorObject "SecurityError" "The operation is insecure.".

Definition getItem (key : string) (st : Storage) : Completion (option string) :=
  match health st with
  | AccessDenied => Throw SecurityError
  | _ => Normal (items st !! key)
  end.

Definition setItem (key value : string) (st : Storage) : Completion unit * Storage :=
  match health st with
  | Healthy => (Normal tt, {| items := <[key := value]> (items st); health := health st |})
  | QuotaExceeded => (Throw QuotaExceededError, st)
  | AccessDenied => (Throw SecurityError, st)
  end.

(** [Array.prototype.sort(compareFn)] is a stable sort: the result is in
    the order of [compareFn], and elements that compare equal keep the order
    they had.  [a] may stand before [b] when [compareFn(a, b) <= 0]. *)
Definition sortsBefore {A} (compareFn : A → A → Z) : relation A :=
  λ a b, (compareFn a b ≤ 0)%Z.

#[global] Instance sortsBefore_dec {A} (compareFn : A → A → Z) a b :
  Decision (sortsBefore compareFn a b).
Proof. unfold sortsBefore. apply _. Defined.

(** [x] goes in front of the first element it may stand before, so it
    passes only elements that must come first. *)
Fixpoint insertSorted {A} (compareFn : A → A → Z) (x : A) (l : list A) : list A :=
  match l with
  | [] => [x]
  | y :: l' =>
      if decide (sortsBefore compareFn x y) then x :: y :: l'
      else y :: insertSorted compareFn x l'
  end.

(** The elements are inserted from the last to the first, each in front of
    the later elements it ties with. *)
Definition sort {A} (compareFn : A → A → Z) (l : list A) : list A :=
  foldr (insertSorted compareFn) [] l.

End JS.

Import JS.

(** ** The install-prompt component *)

Module PWAInstall.

Inductive Outcome := accepted | dismissed.

Record UserChoice := {
  outcome : Outcome;
  platform : string
}.

(** The event handed over by the platform.  [prompt] and [userChoice] are
    the way the two promises of the handle settle once they are awaited;
    [defaultPrevented] is the flag [preventDefault()] sets. *)
Record BeforeInstallPromptEvent := {
  platforms : list string;
  userChoice : Settled UserChoice;
  prompt : Settled unit;
  defaultPrevented : bool
}.

Definition preventDefault (e : BeforeInstallPromptEvent) : BeforeInstallPromptEvent :=
  {| platforms := platforms e; userChoice := userChoice e;
     prompt := prompt e; defaultPrevented := true |}.

(** The three [useState] cells. *)
Record ComponentState := {
  deferredPrompt : option BeforeInstallPromptEvent;
  showInstallBanner : bool;
  isInstalled : bool
}.

Definition initialState : ComponentState :=
  {| deferredPrompt := None; showInstallBanner := false; isInstalled := false |}.

Inductive Listener := LhandleBeforeInstallPrompt | LhandleAppInstalled.

#[global] Instance Listener_eq_dec : EqDecision Listener.
Proof. solve_decision. Defined.

Record ConsoleEntry := {
  label : string;
  logged : Thrown
}.

(** Everything a handler of the component can read or write. *)
Record World := {
  hooks : ComponentState;
  localStorage : Storage;
  console : list ConsoleEntry;
  listeners : list (string * Listener);
  nativePrompts : nat
}.

(** *** Handler computations *)

Abbreviation M := (Eff World).

Definition modify_hooks (f : ComponentState → ComponentState) : M unit :=
  λ w, (Normal tt,
        {| hooks := f (hooks w); localStorage := localStorage w;
           console := console w; listeners := listeners w;
           nativePrompts := nativePrompts w |}).

Definition setDeferredPrompt (v : option BeforeInstallPromptEvent) : M unit :=
  modify_hooks (λ s, {| deferredPrompt := v;
                        showInstallBanner := showInstallBanner s;
                        isInstalled := isInstalled s |}).

Definition setShowInstallBanner (v : bool) : M unit :=
  modify_hooks (λ s, {| deferredPrompt := deferredPrompt s;
                        showInstallBanner := v;
                        isInstalled := isInstalled s |}).

Definition setIsInstalled (v : bool) : M unit :=
  modify_hooks (λ s, {| deferredPrompt := deferredPrompt s;
                        showInstallBanner := showInstallBanner s;
                        isInstalled := v |}).

Definition read_deferredPrompt : M (option BeforeInstallPromptEvent) :=
  λ w, (Normal (deferredPrompt (hooks w)), w).

Definition localStorage_getItem (key : string) : M (option string) :=
  λ w, (getItem key (localStorage w), w).

Definition localStorage_setItem (key value : string) : M unit :=
  λ w, let '(c, st) := setItem key value (localStorage w) in
       (c, {| hooks := hooks w; localStorage := st;
              console := console w; listeners := listeners w;
              nativePrompts := nativePrompts w |}).

Definition console_error (lbl : string) (e : Thrown) : M unit :=
  λ w, (Normal tt,
        {| hooks := hooks w; localStorage := localStorage w;
           console := console w ++ [{| label := lbl; logged := e |}];
           listeners := listeners w;
           nativePrompts := nativePrompts w |}).

(** [deferredPrompt.prompt()]: asks the platform for its native install
    dialogue and hands back the promise of the handle. *)
Definition call_prompt (h : BeforeInstallPromptEvent) : M (Settled unit) :=
  λ w, (Normal (prompt h),
        {| hooks := hooks w; localStorage := localStorage w;
           console := console w; listeners := listeners w;
           nativePrompts := S (nativePrompts w) |}).

Definition addEventListener (type : string) (l : Listener) : M unit :=
  λ w, (Normal tt,
        {| hooks := hooks w; localStorage := localStorage w;
           console := console w;
           listeners := if decide ((type, l) ∈ listeners w) then listeners w
                        else listeners w ++ [(type, l)];
           nativePrompts := nativePrompts w |}).

Definition removeEventListener (type : string) (l : Listener) : M unit :=
  λ w, (Normal tt,
        {| hooks := hooks w; localStorage := localStorage w;
           console := console w;
           listeners := filter (λ r, r ≠ (type, l)) (listeners w);
           nativePrompts := nativePrompts w |}).

(** *** The handlers of the component *)

Definition dismissedKey : string := "pwa-install-dismissed".

Definition handleBeforeInstallPrompt (e : BeforeInstallPromptEvent) : M unit :=
  let e := preventDefault e in
  setDeferredPrompt (Some e) ;;
  dismissed ← localStorage_getItem dismissedKey;
  if falsy dismissed then setShowInstallBanner true else mret tt.

Definition handleAppInstalled : M unit :=
  setIsInstalled true ;;
  setShowInstallBanner false ;;
  setDeferredPrompt None.

(** The [try]/[catch] statement of [handleInstallClick], for the handle
    [h] the call read from its state cell. *)
Definition handleInstallClick_try (h : BeforeInstallPromptEvent) : M unit :=
  try_catch
    (p ← call_prompt h;
     await p ;;
     choice ← await (userChoice h);
     (match outcome choice with
      | accepted => setShowInstallBanner false
      | dismissed => mret tt
      end) ;;
     setDeferredPrompt None)
    (λ error, console_error "Error during PWA installation:" error).

(** What is left of that statement once [prompt()] has been called and the
    call is suspended at its first [await]: it runs when the promises
    settle, possibly after other events were handled. *)
Definition handleInstallClick_settle (h : BeforeInstallPromptEvent) : M unit :=
  try_catch
    (await (prompt h) ;;
     choice ← await (userChoice h);
     (match outcome choice with
      | accepted => setShowInstallBanner false
      | dismissed => mret tt
      end) ;;
     setDeferredPrompt None)
    (λ error, console_error "Error during PWA installation:" error).

Definition handleInstallClick : M unit :=
  dp ← read_deferredPrompt;
  match dp with
  | None => mret tt
  | Some h => handleInstallClick_try h
  end.

Definition handleDismiss : M unit :=
  setShowInstallBanner false ;;
  localStorage_setItem dismissedKey "true".

(** *** The mount effect *)

Record Platform := {
  (* window.matchMedia("(display-mode: standalone)").matches *)
  displayModeStandalone : bool;
  (* window.navigator.standalone; [None] where the property is undefined *)
  navigatorStandalone : option bool
}.

(** The effect body; its result tells whether it returned a cleanup. *)
Definition useEffect_setup (pf : Platform) : M bool :=
  let isStandalone := displayModeStandalone pf in
  let isInWebAppiOS := bool_decide (navigatorStandalone pf = Some true) in
  if isStandalone || isInWebAppiOS then
    setIsInstalled true ;;
    mret false
  else
    addEventListener "beforeinstallprompt" LhandleBeforeInstallPrompt ;;
    addEventListener "appinstalled" LhandleAppInstalled ;;
    mret true.

Definition useEffect_cleanup : M unit :=
  removeEventListener "beforeinstallprompt" LhandleBeforeInstallPrompt ;;
  removeEventListener "appinstalled" LhandleAppInstalled.

Definition freshWorld (ls : Storage) : World :=
  {| hooks := initialState; localStorage := ls; console := [];
     listeners := []; nativePrompts := 0 |}.

(** The world once the component is mounted and its effect has run. *)
Definition mount (pf : Platform) (ls : Storage) : World :=
  (useEffect_setup pf (freshWorld ls)).2.

(** *** Events dispatched on [window] *)

Inductive WindowEvent :=
| beforeinstallprompt (e : BeforeInstallPromptEvent)
| appinstalled.

Definition eventType (ev : WindowEvent) : string :=
  match ev with
  | beforeinstallprompt _ => "beforeinstallprompt"
  | appinstalled => "appinstalled"
  end.

(** A listener is only ever called with an event of the type it was
    registered for. *)
Definition invoke (l : Listener) (ev : WindowEvent) : M unit :=
  match l, ev with
  | LhandleBeforeInstallPrompt, beforeinstallprompt e => handleBeforeInstallPrompt e
  | LhandleAppInstalled, appinstalled => handleAppInstalled
  | _, _ => mret tt
  end.

(** The listeners registered for the type of [ev] run in registration
    order; what one of them throws is reported, not propagated, and the
    next one still runs. *)
Definition dispatchEvent (ev : WindowEvent) (w : World) : World :=
  foldl (λ w' r, if decide (r.1 = eventType ev) then (invoke r.2 ev w').2 else w')
        w (listeners w).

(** *** Render *)

Inductive Handler := HhandleInstallClick | HhandleDismiss.

#[global] Instance Handler_eq_dec : EqDecision Handler.
Proof. solve_decision. Defined.

Definition onClickOf (hd : Handler) : M unit :=
  match hd with
  | HhandleInstallClick => handleInstallClick
  | HhandleDismiss => handleDismiss
  end.

(** The rendered tree, without class names. *)
#[warnings="-register-all"] Inductive Element :=
| Div (children : list Element)
| H3 (txt : string)
| P (txt : string)
| Button (onClick : Handler) (ariaLabel : option string) (children : list Element)
| Text (txt : string)
| IconDownload
| IconX.

Definition banner : Element :=
  Div [
    Div [
      Div [ IconDownload ];
      Div [
        H3 "Install BoringCode.dev";
        P "Install our app for quick access to development tools and offline browsing.";
        Div [
          Button HhandleInstallClick None [ Text "Install" ];
          Button HhandleDismiss None [ Text "Not now" ]
        ]
      ];
      Button HhandleDismiss (Some "Dismiss install prompt") [ IconX ]
    ]
  ].

Definition isNull {A} (v : option A) : bool :=
  match v with
  | None => true
  | Some _ => false
  end.

Definition render (s : ComponentState) : option Element :=
  if isInstalled s || negb (showInstallBanner s) || isNull (deferredPrompt s)
  then None
  else Some banner.

(** The buttons of a tree, in document order, each with its click handler,
    its [aria-label] and its content. *)
Fixpoint buttons (el : Element) : list (Handler * option string * list Element) :=
  match el with
  | Div children => flat_map buttons children
  | Button hd lbl children => [(hd, lbl, children)]
  | _ => []
  end.

(** A click on a button whose handler is [hd] can only happen when the
    rendered tree has such a button. *)
Definition clickable (hd : Handler) (s : ComponentState) : bool :=
  match render s with
  | None => false
  | Some el => bool_decide (Exists (λ b, b.1.1 = hd) (buttons el))
  end.

(** *** The controller as a transition system *)

(** A mounted component: its world, and the handles of the calls of
    [handleInstallClick] that are suspended at an [await]. *)
Record Controller := {
  world : World;
  awaiting : list BeforeInstallPromptEvent
}.

Inductive Label :=
| Dispatch (ev : WindowEvent)      (* the platform dispatches an event *)
| ClickInstall                     (* the user clicks "Install" *)
| ClickDismiss                     (* the user clicks "Not now" or the close icon *)
| Settle (i : nat).                (* the promises of the i-th suspended call settle *)

Definition exec (lb : Label) (c : Controller) : option Controller :=
  match lb with
  | Dispatch ev =>
      Some {| world := dispatchEvent ev (world c); awaiting := awaiting c |}
  | ClickInstall =>
      if clickable HhandleInstallClick (hooks (world c)) then
        match deferredPrompt (hooks (world c)) with
        | None => Some c
        | Some h => Some {| world := (call_prompt h (world c)).2;
                            awaiting := awaiting c ++ [h] |}
        end
      else None
  | ClickDismiss =>
      if clickable HhandleDismiss (hooks (world c)) then
        Some {| world := (handleDismiss (world c)).2; awaiting := awaiting c |}
      else None
  | Settle i =>
      match awaiting c !! i with
      | None => None
      | Some h => Some {| world := (handleInstallClick_settle h (world c)).2;
                          awaiting := delete i (awaiting c) |}
      end
  end.

Fixpoint run (tr : list Label) (c : Controller) : option Controller :=
  match tr with
  | [] => Some c
  | lb :: tr' =>
      match exec lb c with
      | None => None
      | Some c' => run tr' c'
      end
  end.

Definition start (pf : Platform) (ls : Storage) : Controller :=
  {| world := mount pf ls; awaiting := [] |}.

Definition isInstallabilitySignal (lb : Label) : bool :=
  match lb with
  | Dispatch (beforeinstallprompt _) => true
  | _ => false
  end.

(** How the sequence [await prompt(); await userChoice] of a handle ends:
    with the user's outcome, or with what the first rejected promise threw. *)
Definition awaitedOutcome (h : BeforeInstallPromptEvent) : Settled Outcome :=
  match prompt h with
  | Rejected e => Rejected e
  | Fulfilled _ =>
      match userChoice h with
      | Rejected e => Rejected e
      | Fulfilled choice => Fulfilled (outcome choice)
      end
  end.

(** The platform reports the app as running installed: the standalone
    display mode matches, or the iOS flag is [true]. *)
Definition standalone (pf : Platform) : Prop :=
  displayModeStandalone pf = true ∨ navigatorStandalone pf = Some true.

#[global] Instance standalone_dec pf : Decision (standalone pf).
Proof. unfold standalone. apply _. Defined.

(** What the component shows in a state of the controller. *)
Definition rendered (c : Controller) : option Element := render (hooks (world c)).

(** Both listeners of the effect are registered on [window]. *)
Definition registered (w : World) : Prop :=
  listeners w = [("beforeinstallprompt", LhandleBeforeInstallPrompt);
                 ("appinstalled", LhandleAppInstalled)].

(** Unfolds a handler down to the world it returns. *)
Ltac run_handler :=
  cbv [handleInstallClick handleInstallClick_try handleInstallClick_settle
       handleBeforeInstallPrompt handleAppInstalled handleDismiss
       useEffect_setup useEffect_cleanup
       setDeferredPrompt setShowInstallBanner setIsInstalled modify_hooks
       read_deferredPrompt localStorage_getItem localStorage_setItem
       console_error call_prompt addEventListener removeEventListener
       mbind mret Eff_bind Eff_ret try_catch try_finally await throw
       getItem setItem] in *;
  cbn [hooks localStorage console listeners nativePrompts
       deferredPrompt showInstallBanner isInstalled
       items health outcome fst snd] in *.

End PWAInstall.

(** Sample handles, stores and worlds. *)

Module PWAInstallExamples.

Import PWAInstall.

Definition handleWith (pr : Settled unit) (uc : Settled UserChoice) : BeforeInstallPromptEvent :=
  {| platforms := ["web"]; userChoice := uc; prompt := pr; defaultPrevented := false |}.

Definition choiceOf (o : Outcome) : UserChoice := {| outcome := o; platform := "web" |}.

Definition acceptingHandle : BeforeInstallPromptEvent :=
  handleWith (Fulfilled tt) (Fulfilled (choiceOf accepted)).
Definition dismissingHandle : BeforeInstallPromptEvent :=
  handleWith (Fulfilled tt) (Fulfilled (choiceOf dismissed)).
Definition notAllowed : Thrown :=
  ErrorObject "NotAllowedError" "The prompt() method must be called with a user gesture".
Definition rejectingHandle : BeforeInstallPromptEvent :=
  handleWith (Rejected notAllowed) (Fulfilled (choiceOf dismissed)).

Definition storeOf (m : gmap string string) (hl : StorageHealth) : Storage :=
  {| items := m; health := hl |}.
Definition emptyStore : Storage := storeOf ∅ Healthy.
Definition dismissedStore : Storage := storeOf {[ dismissedKey := "true" ]} Healthy.
Definition fullStore : Storage := storeOf ∅ QuotaExceeded.

Definition worldOf (dp : option BeforeInstallPromptEvent) (shown : bool) (ls : Storage) : World :=
  {| hooks := {| deferredPrompt := dp; showInstallBanner := shown; isInstalled := false |};
     localStorage := ls; console := [];
     listeners := [("beforeinstallprompt", LhandleBeforeInstallPrompt);
                   ("appinstalled", LhandleAppInstalled)];
     nativePrompts := 0 |}.

Definition browserTab : Platform :=
  {| displayModeStandalone := false; navigatorStandalone := None |}.
Definition standaloneWindow : Platform :=
  {| displayModeStandalone := true; navigatorStandalone := None |}.
Definition iosHomeScreen : Platform :=
  {| displayModeStandalone := false; navigatorStandalone := Some true |}.

End PWAInstallExamples.

(** ** components/github-org.tsx *)

Module GitHubOrg.

Record Repository := {
  id : Z;
  name : string;
  description : option string;
  html_url : string;
  stargazers_count : Z;
  forks_count : Z;
  language : option string;
  topics : list string;
  updated_at : string;
  pushed_at : string
}.

Record Organization := {
  login : string;
  org_name : string;
  org_description : option string;
  avatar_url : string;
  org_html_url : string;
  public_repos : Z
}.

(** The four [useState] cells. *)
Record BrowserState := {
  org : option Organization;
  repos : list Repository;
  loading : bool;
  error : option string
}.

Definition initialBrowserState : BrowserState :=
  {| org := None; repos := []; loading := true; error := None |}.

Definition setOrg (v : option Organization) : Eff BrowserState unit :=
  λ s, (Normal tt, {| org := v; repos := repos s; loading := loading s; error := error s |}).
Definition setRepos (v : list Repository) : Eff BrowserState unit :=
  λ s, (Normal tt, {| org := org s; repos := v; loading := loading s; error := error s |}).
Definition setLoading (v : bool) : Eff BrowserState unit :=
  λ s, (Normal tt, {| org := org s; repos := repos s; loading := v; error := error s |}).
Definition setError (v : option string) : Eff BrowserState unit :=
  λ s, (Normal tt, {| org := org s; repos := repos s; loading := loading s; error := v |}).

(** What [fetch] resolves to: the [ok] flag and the way [json()] settles. *)
Record Response (A : Type) := {
  ok : bool;
  json : Settled A
}.
Arguments ok {A} _.
Arguments json {A} _.

(** The filter-and-sort expression of [fetchData]. *)
Definition filteredRepos (reposData : list Repository) : list Repository :=
  sort (λ a b, stargazers_count b - stargazers_count a)%Z
       (List.filter (λ repo, negb (includes (name repo) ".github")) reposData).

(** [fetchData], for the way the two requests settle. *)
Definition fetchData
    (orgFetch : Settled (Response Organization))
    (reposFetch : Settled (Response (list Repository))) : Eff BrowserState unit :=
  try_finally
    (try_catch
       (setLoading true ;;
        orgResponse ← await orgFetch;
        (if negb (ok orgResponse)
         then throw (ErrorObject "Error" "Failed to fetch organization")
         else mret tt) ;;
        orgData ← await (json orgResponse);
        setOrg (Some orgData) ;;
        reposResponse ← await reposFetch;
        (if negb (ok reposResponse)
         then throw (ErrorObject "Error" "Failed to fetch repositories")
         else mret tt) ;;
        reposData ← await (json reposResponse);
        setRepos (filteredRepos reposData))
       (λ err, setError (Some (match err with
                               | ErrorObject _ msg => msg
                               | OtherValue _ => "An error occurred"
                               end))))
    (setLoading false).

(** The comparison behind "descending by stars". *)
Definition atLeastAsStarred (a b : Repository) : Prop :=
  (stargazers_count b ≤ stargazers_count a)%Z.

End GitHubOrg.

(** Sample repositories and responses. *)

Module GitHubOrgExamples.

Import GitHubOrg.

Definition repoOf (n : string) (stars : Z) : Repository :=
  {| id := 1; name := n; description := None;
     html_url := "https://github.com/boringcode-dev/" ++ n;
     stargazers_count := stars; forks_count := 0; language := Some "TypeScript";
     topics := []; updated_at := "2024-01-01T00:00:00Z";
     pushed_at := "2024-01-01T00:00:00Z" |}.

Definition sampleRepos : list Repository :=
  [ repoOf "boringcode.dev" 3; repoOf ".github" 10; repoOf "tools" 7;
    repoOf "notes" 3; repoOf "cli" 5 ].

Definition sampleOrg : Organization :=
  {| login := "boringcode-dev"; org_name := "BoringCode"; org_description := None;
     avatar_url := ""; org_html_url := "https://github.com/boringcode-dev";
     public_repos := 5 |}.

Definition okResponse {A} (body : A) : Settled (Response A) :=
  Fulfilled {| ok := true; json := Fulfilled body |}.

End GitHubOrgExamples.

(** ** Runs of the controller *)

Module PWAInstallRuns.

Import PWAInstall.

Definition isClickInstall (lb : Label) : bool :=
  match lb with
  | ClickInstall => true
  | _ => false
  end.

Definition isSettle (lb : Label) : bool :=
  match lb with
  | Settle _ => true
  | _ => false
  end.

(** How many labels of a run satisfy [f]. *)
Definition countLabels (f : Label → bool) (tr : list Label) : nat :=
  length (List.filter f tr).

(** The check [!dismissed] of the installability listener cannot succeed on
    this store: the read throws, or what it reads is truthy. *)
Definition suppressing (st : Storage) : Prop :=
  match getItem dismissedKey st with
  | Normal v => falsy v = false
  | Throw _ => True
  end.

(** Every handle the controller holds, in its state cell or in a suspended
    call, has had its default prevented. *)
Definition handlesPrevented (c : Controller) : Prop :=
  (∀ h, deferredPrompt (hooks (world c)) = Some h → defaultPrevented h = true) ∧
  Forall (λ h, defaultPrevented h = true) (awaiting c).

End PWAInstallRuns.

(** ** components/github-org.tsx: helpers and render *)

Module GitHubOrgView.

Import GitHubOrg.

(** [v || d] for [v : string | null | undefined]. *)
Definition orElse (v : option string) (d : string) : string :=
  match v with
  | Some s => if falsy v then d else s
  | None => d
  end.

(** *** getLanguageColor *)

(** The own properties of the [colors] literal. *)
Definition colors : list (string * string) :=
  [ ("JavaScript", "bg-yellow-400");
    ("TypeScript", "bg-blue-500");
    ("Shell", "bg-green-500");
    ("HTML", "bg-orange-500");
    ("CSS", "bg-purple-500");
    ("Python", "bg-blue-600");
    ("Go", "bg-cyan-500") ].

(** The property names an object literal inherits from [Object.prototype];
    reading one of them yields a function (or, for [__proto__], the
    prototype), not [undefined]. *)
Definition objectPrototypeKeys : list string :=
  [ "constructor"; "hasOwnProperty"; "isPrototypeOf"; "propertyIsEnumerable";
    "toLocaleString"; "toString"; "valueOf"; "__proto__";
    "__defineGetter__"; "__defineSetter__"; "__lookupGetter__"; "__lookupSetter__" ].

(** What reading a property of [colors] gives. *)
Inductive PropertyValue :=
| OwnString (s : string)
| Inherited (key : string)
| Undefined.

Fixpoint assoc (key : string) (l : list (string * string)) : option string :=
  match l with
  | [] => None
  | (k, v) :: l' => if decide (k = key) then Some v else assoc key l'
  end.

(** [colors[key]] *)
Definition colorsAt (key : string) : PropertyValue :=
  match assoc key colors with
  | Some v => OwnString v
  | None => if decide (key ∈ objectPrototypeKeys) then Inherited key else Undefined
  end.

(** [pv || d]: an own string is falsy when empty, an inherited function is
    truthy, [undefined] is falsy. *)
Definition propertyOrElse (pv : PropertyValue) (d : string) : PropertyValue :=
  match pv with
  | OwnString "" => OwnString d
  | OwnString s => OwnString s
  | Inherited k => Inherited k
  | Undefined => OwnString d
  end.

Definition getLanguageColor (language : option string) : PropertyValue :=
  propertyOrElse (colorsAt (orElse language "")) "bg-gray-400".

(** *** The rendered page, by its data-dependent parts *)

(** The topics block of a card: the badges of the first three topics and,
    beyond three topics, the outline badge with the number left out. *)
Record TopicsBlock := {
  shownTopics : list string;
  moreTopics : option Z
}.

Record Card := {
  cardKey : Z;
  titleHref : string;
  titleText : string;
  descriptionText : string;
  (* the coloured dot and the name of the language *)
  languageRow : option (PropertyValue * string);
  starsText : Z;
  forksText : Z;
  topicsBlock : option TopicsBlock;
  updatedText : string
}.

Record Header := {
  (* src and alt of the logo *)
  logo : option (string * string);
  heading : string;
  tagline : string;
  publicReposText : option Z;
  githubHref : option string
}.

Inductive View :=
| LoadingView
| ErrorView (message : string)
| ReadyView (header : Header) (cards : list Card).

Section render.

(** [formatDate] goes through [Date] and the "en-US" locale; it is taken as
    given. *)
Variable formatDate : string → string.

Definition renderTopics (topics : list string) : option TopicsBlock :=
  if (0 <? Z.of_nat (length topics))%Z then
    Some {| shownTopics := take 3 topics;
            moreTopics := if (3 <? Z.of_nat (length topics))%Z
                          then Some (Z.of_nat (length topics) - 3)%Z
                          else None |}
  else None.

Definition renderCard (repo : Repository) : Card :=
  {| cardKey := id repo;
     titleHref := html_url repo;
     titleText := name repo;
     descriptionText := orElse (description repo) "No description available";
     languageRow :=
       match language repo with
       | Some lang => if falsy (Some lang) then None
                      else Some (getLanguageColor (language repo), lang)
       | None => None
       end;
     starsText := stargazers_count repo;
     forksText := forks_count repo;
     topicsBlock := renderTopics (topics repo);
     updatedText := "Updated " ++ formatDate (updated_at repo) |}.

Definition renderHeader (o : option Organization) : Header :=
  {| logo :=
       match o with
       | Some og => if falsy (Some (avatar_url og)) then None
                    else Some (orElse (Some (avatar_url og)) "/placeholder.svg",
                               org_name og ++ " logo")
       | None => None
       end;
     heading := orElse (org_name <$> o) "BoringCode.dev";
     tagline := orElse (o ≫= org_description)
                       "We write the boring stuff, so you don't have to.";
     publicReposText := public_repos <$> o;
     githubHref := org_html_url <$> o |}.

Definition render (s : BrowserState) : View :=
  if loading s then LoadingView
  else if negb (falsy (error s)) then ErrorView ("Error: " ++ orElse (error s) "")
  else ReadyView (renderHeader (org s)) (renderCard <$> repos s).

End render.

(** The component from its mount to the end of [fetchData]. *)
Definition afterFetch
    (orgFetch : Settled (Response Organization))
    (reposFetch : Settled (Response (list Repository))) : BrowserState :=
  (fetchData orgFetch reposFetch initialBrowserState).2.

(** What [fetchData] stores as the error for a thrown value. *)
Definition errorMessage (err : Thrown) : string :=
  match err with
  | ErrorObject _ msg => msg
  | OtherValue _ => "An error occurred"
  end.

(** How the requests of [fetchData] end: with the two bodies, or with what
    the first failing step throws. *)
Definition fetched {A} (what : string) (r : Settled (Response A)) : Settled A :=
  match r with
  | Rejected e => Rejected e
  | Fulfilled resp =>
      if ok resp then json resp
      else Rejected (ErrorObject "Error" ("Failed to fetch " ++ what))
  end.

End GitHubOrgView.

(** ** Properties of the install-prompt controller *)

Module PWAInstallFacts.

Import PWAInstall PWAInstallExamples.

(** The first call of the [try] block is [prompt()]; the rest of the block
    is what runs when the promises settle. *)
Lemma handleInstallClick_try_split h w :
  handleInstallClick_try h w = handleInstallClick_settle h (call_prompt h w).2.
Proof.
  run_handler. destruct (prompt h) as [[]|e]; [|reflexivity].
  destruct (userChoice h) as [[[] plat]|e]; reflexivity.
Qed.

(** *** Dispatch *)

Lemma dispatchEvent_beforeinstallprompt w e :
  registered w →
  dispatchEvent (beforeinstallprompt e) w = (handleBeforeInstallPrompt e w).2.
Proof.
  unfold registered, dispatchEvent. intros ->. cbn [foldl fst snd eventType invoke].
  repeat case_decide; try done.
Qed.

Lemma dispatchEvent_appinstalled w :
  registered w →
  dispatchEvent appinstalled w = (handleAppInstalled w).2.
Proof.
  unfold registered, dispatchEvent. intros ->. cbn [foldl fst snd eventType invoke].
  repeat case_decide; try done.
Qed.

(** A property of the world that every listener keeps is kept by a
    dispatch. *)
Lemma dispatchEvent_preserves (Q : World → Prop) ev w :
  (∀ l w', Q w' → Q (invoke l ev w').2) →
  Q w → Q (dispatchEvent ev w).
Proof.
  intros Hstep. unfold dispatchEvent. generalize (listeners w) as ls.
  intros ls. revert w. induction ls as [|r ls IH]; intros w Hw; [done|].
  cbn [foldl]. apply IH. case_decide; [by apply Hstep | done].
Qed.

(** *** What the handlers leave alone *)

Lemma invoke_listeners l ev w : listeners (invoke l ev w).2 = listeners w.
Proof.
  destruct l, ev as [e|]; unfold invoke; run_handler; try reflexivity.
  destruct (health (localStorage w)); try reflexivity; by destruct (falsy _).
Qed.

Lemma invoke_isInstalled l ev w :
  isInstalled (hooks w) = true → isInstalled (hooks (invoke l ev w).2) = true.
Proof.
  intros Hi. destruct l, ev as [e|]; unfold invoke; run_handler; try done.
  destruct (health (localStorage w)); try done; by destruct (falsy _).
Qed.

Lemma handleInstallClick_settle_listeners h w :
  listeners (handleInstallClick_settle h w).2 = listeners w.
Proof.
  run_handler. destruct (prompt h) as [[]|e]; [|reflexivity].
  destruct (userChoice h) as [[[] plat]|e]; reflexivity.
Qed.

Lemma handleInstallClick_settle_isInstalled h w :
  isInstalled (hooks (handleInstallClick_settle h w).2) = isInstalled (hooks w).
Proof.
  run_handler. destruct (prompt h) as [[]|e]; [|reflexivity].
  destruct (userChoice h) as [[[] plat]|e]; reflexivity.
Qed.

Lemma handleInstallClick_isInstalled w :
  isInstalled (hooks (handleInstallClick w).2) = isInstalled (hooks w).
Proof.
  unfold handleInstallClick, read_deferredPrompt. cbv [mbind Eff_bind mret Eff_ret].
  destruct (deferredPrompt (hooks w)) as [h|]; [|reflexivity].
  rewrite handleInstallClick_try_split, handleInstallClick_settle_isInstalled.
  reflexivity.
Qed.

Lemma handleDismiss_listeners w : listeners (handleDismiss w).2 = listeners w.
Proof. run_handler. by destruct (health (localStorage w)). Qed.

Lemma handleDismiss_hooks w :
  hooks (handleDismiss w).2 =
  {| deferredPrompt := deferredPrompt (hooks w); showInstallBanner := false;
     isInstalled := isInstalled (hooks w) |}.
Proof. run_handler. by destruct (health (localStorage w)). Qed.

Lemma handleInstallClick_settle_nativePrompts h w :
  nativePrompts (handleInstallClick_settle h w).2 = nativePrompts w.
Proof.
  run_handler. destruct (prompt h) as [[]|e]; [|reflexivity].
  destruct (userChoice h) as [[[] plat]|e]; reflexivity.
Qed.

(** What a completed prompt does to the state cells. *)
Lemma handleInstallClick_accepted w h :
  deferredPrompt (hooks w) = Some h → awaitedOutcome h = Fulfilled accepted →
  showInstallBanner (hooks (handleInstallClick w).2) = false.
Proof.
  intros Hdp Hout. unfold awaitedOutcome in Hout. run_handler. rewrite Hdp.
  destruct (prompt h) as [[]|e]; [|discriminate].
  destruct (userChoice h) as [[[] plat]|e]; by simplify_eq/=.
Qed.

Lemma handleInstallClick_fulfilled w h o :
  deferredPrompt (hooks w) = Some h → awaitedOutcome h = Fulfilled o →
  deferredPrompt (hooks (handleInstallClick w).2) = None ∧
  (o = dismissed →
   showInstallBanner (hooks (handleInstallClick w).2) = showInstallBanner (hooks w)).
Proof.
  intros Hdp Hout. unfold awaitedOutcome in Hout. run_handler. rewrite Hdp.
  destruct (prompt h) as [[]|e]; [|discriminate].
  destruct (userChoice h) as [[[] plat]|e]; by simplify_eq/=.
Qed.

(** *** Render *)

Lemma render_None (s : ComponentState) :
  render s = None ↔
  isInstalled s = true ∨ showInstallBanner s = false ∨ deferredPrompt s = None.
Proof.
  unfold render.
  destruct (isInstalled s), (showInstallBanner s), (deferredPrompt s); cbn;
    split; try (intros; by auto); intros [|[|]]; done.
Qed.

Lemma render_Some (s : ComponentState) :
  render s ≠ None → render s = Some banner.
Proof. unfold render. by destruct (_ || _ || _). Qed.

Lemma render_no_handle (s : ComponentState) : deferredPrompt s = None → render s = None.
Proof. intros Hd. apply render_None. auto. Qed.

(** *** Invariants of the transition system *)

Lemma exec_listeners lb c c' :
  exec lb c = Some c' → listeners (world c') = listeners (world c).
Proof.
  destruct lb as [ev| | |i]; cbn [exec]; intros Hex.
  - simplify_eq. cbn [world].
    apply (dispatchEvent_preserves (λ w', listeners w' = listeners (world c))); [|done].
    intros l w' <-. apply invoke_listeners.
  - destruct (clickable _ _); [|done].
    destruct (deferredPrompt _); by simplify_eq.
  - destruct (clickable _ _); [|done]. simplify_eq. apply handleDismiss_listeners.
  - destruct (awaiting c !! i); [|done]. simplify_eq.
    apply handleInstallClick_settle_listeners.
Qed.

Lemma exec_isInstalled lb c c' :
  exec lb c = Some c' →
  isInstalled (hooks (world c)) = true → isInstalled (hooks (world c')) = true.
Proof.
  destruct lb as [ev| | |i]; cbn [exec]; intros Hex Hi.
  - simplify_eq. cbn [world].
    apply (dispatchEvent_preserves (λ w', isInstalled (hooks w') = true)); [|done].
    intros l w'. apply invoke_isInstalled.
  - destruct (clickable _ _); [|done].
    destruct (deferredPrompt _); by simplify_eq.
  - destruct (clickable _ _); [|done]. simplify_eq. cbn [world].
    by rewrite handleDismiss_hooks.
  - destruct (awaiting c !! i); [|done]. simplify_eq. cbn [world].
    by rewrite handleInstallClick_settle_isInstalled.
Qed.

Lemma run_registered tr c c' :
  run tr c = Some c' → registered (world c) → registered (world c').
Proof.
  revert c. induction tr as [|lb tr IH]; intros c; cbn [run].
  - by intros [= <-].
  - destruct (exec lb c) as [c1|] eqn:Hex; [|done]. intros Hrun Hreg.
    apply (IH c1 Hrun). unfold registered in *. by rewrite (exec_listeners _ _ _ Hex).
Qed.

Lemma run_isInstalled tr c c' :
  run tr c = Some c' →
  isInstalled (hooks (world c)) = true → isInstalled (hooks (world c')) = true.
Proof.
  revert c. induction tr as [|lb tr IH]; intros c; cbn [run].
  - by intros [= <-].
  - destruct (exec lb c) as [c1|] eqn:Hex; [|done]. intros Hrun Hi.
    apply (IH c1 Hrun). by apply (exec_isInstalled _ _ _ Hex).
Qed.

(** *** Mounting *)

Lemma mount_standalone pf ls :
  standalone pf →
  mount pf ls =
  {| hooks := {| deferredPrompt := None; showInstallBanner := false; isInstalled := true |};
     localStorage := ls; console := []; listeners := []; nativePrompts := 0 |}.
Proof.
  intros [Hs|Hs]; unfold mount, useEffect_setup; rewrite Hs; [done|].
  by rewrite orb_true_r.
Qed.

Lemma mount_browser pf ls :
  ¬ standalone pf →
  mount pf ls =
  {| hooks := initialState; localStorage := ls; console := [];
     listeners := [("beforeinstallprompt", LhandleBeforeInstallPrompt);
                   ("appinstalled", LhandleAppInstalled)];
     nativePrompts := 0 |}.
Proof.
  intros Hns. unfold mount, useEffect_setup.
  destruct (displayModeStandalone pf) eqn:Hd; [destruct Hns; by left|].
  case_bool_decide as Hn; [destruct Hns; by right|].
  reflexivity.
Qed.

(** Once mounted in a standalone window nothing is enabled but dispatches,
    and those find no listener. *)
Lemma exec_standalone pf ls lb c :
  standalone pf → exec lb (start pf ls) = Some c → c = start pf ls.
Proof.
  intros Hs. unfold start. rewrite (mount_standalone pf ls Hs).
  destruct lb as [ev| | |i]; cbn; by intros [= <-].
Qed.

Lemma run_standalone pf ls tr c :
  standalone pf → run tr (start pf ls) = Some c → c = start pf ls.
Proof.
  intros Hs. induction tr as [|lb tr IH]; cbn [run].
  - by intros [= <-].
  - destruct (exec lb (start pf ls)) as [c1|] eqn:Hex; [|done].
    by rewrite (exec_standalone pf ls lb c1 Hs Hex).
Qed.

(** The cleanup of the effect takes both listeners off again. *)
Lemma useEffect_cleanup_listeners pf ls :
  listeners (useEffect_cleanup (mount pf ls)).2 = [].
Proof.
  destruct (decide (standalone pf)) as [Hs|Hns].
  - by rewrite (mount_standalone pf ls Hs).
  - rewrite (mount_browser pf ls Hns). vm_compute. reflexivity.
Qed.

(** A click on "Install" followed at once by the settling of its promises
    is one uninterrupted call of [handleInstallClick]. *)
Lemma click_then_settle w aw :
  clickable HhandleInstallClick (hooks w) = true →
  run [ClickInstall; Settle (length aw)] {| world := w; awaiting := aw |} =
  Some {| world := (handleInstallClick w).2; awaiting := aw |}.
Proof.
  intros Hclick. cbn [run exec world awaiting]. rewrite Hclick.
  unfold handleInstallClick, read_deferredPrompt. cbv [mbind Eff_bind mret Eff_ret].
  destruct (deferredPrompt (hooks w)) as [h|] eqn:Hd.
  - cbn [world awaiting]. rewrite lookup_app_r, Nat.sub_diag by lia. cbn [lookup list_lookup].
    rewrite handleInstallClick_try_split. f_equal. f_equal.
    rewrite delete_middle. apply app_nil_r.
  - unfold clickable in Hclick. by rewrite (render_no_handle _ Hd) in Hclick.
Qed.

(** C1. [handleInstallClick]: with an empty handle the call changes nothing;
    with a handle whose awaited outcome is "accepted" it ends with the banner
    hidden and the handle cleared; with outcome "dismissed" it ends with the
    banner flag as it was before the call and the handle cleared. *)
Theorem handleInstallClick_outcomes (w : World) :
  (deferredPrompt (hooks w) = None → handleInstallClick w = (Normal tt, w)) ∧
  (∀ h, deferredPrompt (hooks w) = Some h →
        awaitedOutcome h = Fulfilled accepted →
        (handleInstallClick w).1 = Normal tt ∧
        showInstallBanner (hooks (handleInstallClick w).2) = false ∧
        deferredPrompt (hooks (handleInstallClick w).2) = None) ∧
  (∀ h, deferredPrompt (hooks w) = Some h →
        awaitedOutcome h = Fulfilled dismissed →
        (handleInstallClick w).1 = Normal tt ∧
        showInstallBanner (hooks (handleInstallClick w).2) = showInstallBanner (hooks w) ∧
        deferredPrompt (hooks (handleInstallClick w).2) = None).
Proof.
  split; [|split].
  - intros Hdp. run_handler. by rewrite Hdp.
  - intros h Hdp Hout. unfold awaitedOutcome in Hout. run_handler. rewrite Hdp.
    destruct (prompt h) as [[]|e]; [|discriminate].
    destruct (userChoice h) as [[[] plat]|e]; by simplify_eq/=.
  - intros h Hdp Hout. unfold awaitedOutcome in Hout. run_handler. rewrite Hdp.
    destruct (prompt h) as [[]|e]; [|discriminate].
    destruct (userChoice h) as [[[] plat]|e]; by simplify_eq/=.
Qed.

Lemma handleInstallClick_outcomes_witness :
  handleInstallClick (worldOf None true emptyStore) = (Normal tt, worldOf None true emptyStore) ∧
  deferredPrompt (hooks (handleInstallClick (worldOf (Some acceptingHandle) true emptyStore)).2) = None ∧
  showInstallBanner (hooks (handleInstallClick (worldOf (Some dismissingHandle) true emptyStore)).2) = true.
Proof.
  split; [|split].
  - apply (proj1 (handleInstallClick_outcomes (worldOf None true emptyStore))).
    reflexivity.
  - apply (proj1 (proj2 (handleInstallClick_outcomes
                           (worldOf (Some acceptingHandle) true emptyStore))) acceptingHandle);
      reflexivity.
  - apply (proj2 (proj2 (handleInstallClick_outcomes
                           (worldOf (Some dismissingHandle) true emptyStore))) dismissingHandle);
      reflexivity.
Defined.

(** C2, as stated, fails: when [prompt()] rejects, the call is caught and the
    banner flag is untouched, but the handle is still in its state cell. *)
Lemma rejected_prompt_keeps_handle_counterexample :
  let w := worldOf (Some rejectingHandle) true emptyStore in
  awaitedOutcome rejectingHandle = Rejected notAllowed ∧
  deferredPrompt (hooks (handleInstallClick w).2) = Some rejectingHandle ∧
  ¬ ((handleInstallClick w).1 = Normal tt ∧
     showInstallBanner (hooks (handleInstallClick w).2) = showInstallBanner (hooks w) ∧
     deferredPrompt (hooks (handleInstallClick w).2) = None).
Proof.
  cbv zeta. split; [reflexivity|]. split; [reflexivity|].
  intros (_ & _ & Hcleared). discriminate Hcleared.
Qed.

(** C2, amended. Whatever the trigger/await sequence of [handleInstallClick]
    throws is caught and logged with [console.error]; the call completes
    normally, and the three state cells are as before the call: the banner
    flag is unchanged and the handle is kept, not cleared. *)
Theorem handleInstallClick_failure (w : World) (h : BeforeInstallPromptEvent) (e : Thrown) :
  deferredPrompt (hooks w) = Some h →
  awaitedOutcome h = Rejected e →
  (handleInstallClick w).1 = Normal tt ∧
  console (handleInstallClick w).2 =
    (console w ++ [{| label := "Error during PWA installation:"; logged := e |}])%list ∧
  hooks (handleInstallClick w).2 = hooks w ∧
  showInstallBanner (hooks (handleInstallClick w).2) = showInstallBanner (hooks w) ∧
  deferredPrompt (hooks (handleInstallClick w).2) = Some h ∧
  localStorage (handleInstallClick w).2 = localStorage w.
Proof.
  intros Hdp Hout. unfold awaitedOutcome in Hout. run_handler. rewrite Hdp.
  destruct (prompt h) as [[]|e1].
  - destruct (userChoice h) as [[[] plat]|e2]; by simplify_eq/=.
  - by simplify_eq/=.
Qed.

Lemma handleInstallClick_failure_witness :
  let w := worldOf (Some rejectingHandle) true emptyStore in
  (handleInstallClick w).1 = Normal tt ∧
  console (handleInstallClick w).2 =
    [{| label := "Error during PWA installation:"; logged := notAllowed |}] ∧
  deferredPrompt (hooks (handleInstallClick w).2) = Some rejectingHandle.
Proof.
  cbv zeta.
  pose proof (handleInstallClick_failure
                (worldOf (Some rejectingHandle) true emptyStore)
                rejectingHandle notAllowed eq_refl eq_refl) as (H1 & H2 & _ & _ & H5 & _).
  exact (conj H1 (conj H2 H5)).
Defined.

(** C3, as stated, fails: when the write throws, the banner is hidden but no
    record is stored. *)
Lemma handleDismiss_counterexample :
  let w := worldOf (Some acceptingHandle) true fullStore in
  (handleDismiss w).1 = Throw QuotaExceededError ∧
  ¬ (showInstallBanner (hooks (handleDismiss w).2) = false ∧
     getItem dismissedKey (localStorage (handleDismiss w).2) = Normal (Some "true")).
Proof.
  cbv zeta. split; [reflexivity|].
  intros [_ Hrec]. vm_compute in Hrec. discriminate Hrec.
Qed.

(** C3, amended. Every call of [handleDismiss] ends with the banner hidden,
    whether the storage write throws or not.  When the store accepts the
    write, the call completes normally and the record read back under the
    key is "true"; when the write throws, the store is left as it was. *)
Theorem handleDismiss_effects (w : World) :
  showInstallBanner (hooks (handleDismiss w).2) = false ∧
  deferredPrompt (hooks (handleDismiss w).2) = deferredPrompt (hooks w) ∧
  isInstalled (hooks (handleDismiss w).2) = isInstalled (hooks w) ∧
  (health (localStorage w) = Healthy →
     (handleDismiss w).1 = Normal tt ∧
     getItem dismissedKey (localStorage (handleDismiss w).2) = Normal (Some "true")) ∧
  (health (localStorage w) ≠ Healthy →
     localStorage (handleDismiss w).2 = localStorage w).
Proof.
  run_handler. destruct (health (localStorage w)) eqn:Hh;
    cbn [hooks localStorage showInstallBanner deferredPrompt isInstalled items health fst snd];
    repeat split; try done.
  by rewrite lookup_insert_eq.
Qed.

Lemma handleDismiss_effects_witness :
  getItem dismissedKey
    (localStorage (handleDismiss (worldOf (Some acceptingHandle) true emptyStore)).2)
    = Normal (Some "true") ∧
  localStorage (handleDismiss (worldOf (Some acceptingHandle) true fullStore)).2 = fullStore.
Proof.
  split.
  - apply (handleDismiss_effects (worldOf (Some acceptingHandle) true emptyStore)).
    reflexivity.
  - apply (handleDismiss_effects (worldOf (Some acceptingHandle) true fullStore)).
    discriminate.
Defined.

(** C4. When the installability signal is dispatched to the mounted
    component, the handle is stored (with its default prevented) in both
    cases; with no record under the dismissal key the banner flag becomes
    true, and the banner is rendered unless the app is installed; with a
    record there (the "true" written by [handleDismiss], or any other
    non-empty value) the banner flag is left as it was, so a hidden banner
    stays hidden and nothing is rendered. *)
Theorem beforeinstallprompt_banner (w : World) (e : BeforeInstallPromptEvent) :
  registered w →
  (getItem dismissedKey (localStorage w) = Normal None →
     deferredPrompt (hooks (dispatchEvent (beforeinstallprompt e) w)) = Some (preventDefault e) ∧
     showInstallBanner (hooks (dispatchEvent (beforeinstallprompt e) w)) = true ∧
     (isInstalled (hooks w) = false →
      render (hooks (dispatchEvent (beforeinstallprompt e) w)) = Some banner)) ∧
  (∀ v, getItem dismissedKey (localStorage w) = Normal (Some v) → v ≠ "" →
     deferredPrompt (hooks (dispatchEvent (beforeinstallprompt e) w)) = Some (preventDefault e) ∧
     showInstallBanner (hooks (dispatchEvent (beforeinstallprompt e) w)) =
       showInstallBanner (hooks w) ∧
     (showInstallBanner (hooks w) = false →
      showInstallBanner (hooks (dispatchEvent (beforeinstallprompt e) w)) = false ∧
      render (hooks (dispatchEvent (beforeinstallprompt e) w)) = None)).
Proof.
  intros Hreg. rewrite (dispatchEvent_beforeinstallprompt w e Hreg).
  split.
  - intros Hget. unfold render. run_handler. rewrite Hget. cbn.
    do 2 (split; [done|]). by intros ->.
  - intros v Hget Hv. unfold render. run_handler. rewrite Hget. cbn [falsy].
    destruct v as [|a v]; [done|]. cbn.
    do 2 (split; [done|]). intros ->. split; [done|]. by rewrite orb_true_r.
Qed.

Lemma beforeinstallprompt_banner_witness :
  showInstallBanner
    (hooks (dispatchEvent (beforeinstallprompt acceptingHandle) (worldOf None false emptyStore)))
    = true ∧
  showInstallBanner
    (hooks (dispatchEvent (beforeinstallprompt acceptingHandle) (worldOf None false dismissedStore)))
    = false.
Proof.
  split.
  - apply (proj1 (beforeinstallprompt_banner (worldOf None false emptyStore)
                    acceptingHandle eq_refl)).
    reflexivity.
  - apply (proj2 (beforeinstallprompt_banner (worldOf None false dismissedStore)
                    acceptingHandle eq_refl) "true").
    + vm_compute. reflexivity.
    + discriminate.
    + reflexivity.
Defined.

(** C10. The check of the dismissal record is a truthiness test.  With any
    non-empty string under the key, "false" included, the installability
    signal leaves a hidden banner hidden; the signal turns the banner flag
    from false to true only when the value read is null or the empty string,
    and in those two cases it does set the flag. *)
Theorem dismissal_check_is_truthiness (w : World) (e : BeforeInstallPromptEvent) :
  registered w →
  (∀ v, getItem dismissedKey (localStorage w) = Normal (Some v) → v ≠ "" →
     showInstallBanner (hooks w) = false →
     showInstallBanner (hooks (dispatchEvent (beforeinstallprompt e) w)) = false) ∧
  (showInstallBanner (hooks w) = false →
   showInstallBanner (hooks (dispatchEvent (beforeinstallprompt e) w)) = true →
     getItem dismissedKey (localStorage w) = Normal None ∨
     getItem dismissedKey (localStorage w) = Normal (Some "")) ∧
  (getItem dismissedKey (localStorage w) = Normal None ∨
   getItem dismissedKey (localStorage w) = Normal (Some "") →
     showInstallBanner (hooks (dispatchEvent (beforeinstallprompt e) w)) = true).
Proof.
  intros Hreg. rewrite (dispatchEvent_beforeinstallprompt w e Hreg).
  unfold handleBeforeInstallPrompt, localStorage_getItem. run_handler.
  destruct (health (localStorage w));
    destruct (items (localStorage w) !! dismissedKey) as [[|a v]|];
    cbn; repeat split; intros; destruct_or?; simplify_eq/=; auto; congruence.
Qed.

Lemma dismissal_check_is_truthiness_witness :
  showInstallBanner
    (hooks (dispatchEvent (beforeinstallprompt acceptingHandle)
              (worldOf None false (storeOf {[ dismissedKey := "false" ]} Healthy))))
    = false ∧
  showInstallBanner
    (hooks (dispatchEvent (beforeinstallprompt acceptingHandle)
              (worldOf None false (storeOf {[ dismissedKey := "" ]} Healthy))))
    = true.
Proof.
  split.
  - apply (proj1 (dismissal_check_is_truthiness
                    (worldOf None false (storeOf {[ dismissedKey := "false" ]} Healthy))
                    acceptingHandle eq_refl) "false").
    + vm_compute. reflexivity.
    + discriminate.
    + reflexivity.
  - apply (proj2 (proj2 (dismissal_check_is_truthiness
                    (worldOf None false (storeOf {[ dismissedKey := "" ]} Healthy))
                    acceptingHandle eq_refl))).
    right. vm_compute. reflexivity.
Defined.

(** C5. In every state the mounted controller can reach, the
    installed-confirmation event leaves [isInstalled] true, the banner flag
    false and the handle empty, and [isInstalled] is true in every state
    reached afterwards, whatever is dispatched, clicked or settled. *)
Theorem appinstalled_is_terminal (pf : Platform) (ls : Storage) (tr : list Label) (c : Controller) :
  run tr (start pf ls) = Some c →
  isInstalled (hooks (dispatchEvent appinstalled (world c))) = true ∧
  showInstallBanner (hooks (dispatchEvent appinstalled (world c))) = false ∧
  deferredPrompt (hooks (dispatchEvent appinstalled (world c))) = None ∧
  (∀ tr' c', run (Dispatch appinstalled :: tr') c = Some c' →
             isInstalled (hooks (world c')) = true) ∧
  (∀ w, isInstalled (hooks w) = true →
        (∀ ev, isInstalled (hooks (dispatchEvent ev w)) = true) ∧
        isInstalled (hooks (handleInstallClick w).2) = true ∧
        isInstalled (hooks (handleDismiss w).2) = true).
Proof.
  intros Hrun.
  assert (isInstalled (hooks (dispatchEvent appinstalled (world c))) = true ∧
          showInstallBanner (hooks (dispatchEvent appinstalled (world c))) = false ∧
          deferredPrompt (hooks (dispatchEvent appinstalled (world c))) = None)
    as (Hi & Hb & Hd).
  { destruct (decide (standalone pf)) as [Hs|Hns].
    - rewrite (run_standalone pf ls tr c Hs Hrun). unfold start.
      rewrite (mount_standalone pf ls Hs). by cbn.
    - assert (registered (world c)) as Hreg.
      { apply (run_registered tr _ _ Hrun). unfold start. cbn [world].
        by rewrite (mount_browser pf ls Hns). }
      rewrite (dispatchEvent_appinstalled _ Hreg). by run_handler. }
  do 3 (split; [done|]). split.
  - intros tr' c'. cbn [run exec]. intros Hrun'.
    by apply (run_isInstalled tr' _ _ Hrun').
  - intros w Hw. split; [|split].
    + intros ev. apply (dispatchEvent_preserves (λ w', isInstalled (hooks w') = true)); [|done].
      intros l w'. apply invoke_isInstalled.
    + by rewrite handleInstallClick_isInstalled.
    + by rewrite handleDismiss_hooks.
Qed.

Lemma appinstalled_is_terminal_witness :
  isInstalled
    (hooks (dispatchEvent appinstalled
              (dispatchEvent (beforeinstallprompt acceptingHandle)
                 (mount browserTab emptyStore)))) = true.
Proof.
  apply (proj1 (appinstalled_is_terminal browserTab emptyStore
           [Dispatch (beforeinstallprompt acceptingHandle)]
           {| world := dispatchEvent (beforeinstallprompt acceptingHandle)
                         (mount browserTab emptyStore);
              awaiting := [] |} eq_refl)).
Defined.

(** C6. The component renders nothing exactly when it is installed, or the
    banner flag is false, or the handle is empty.  Otherwise it renders the
    banner, whose buttons are "Install", "Not now" and the close icon, in
    this order; the first runs [handleInstallClick], the other two
    [handleDismiss]; from a state in which the banner shows, each of the
    three can end with the banner flag false, and the native prompt is
    requested by the first button and by no other. *)
Theorem render_contract (s : ComponentState) :
  (render s = None ↔
     isInstalled s = true ∨ showInstallBanner s = false ∨ deferredPrompt s = None) ∧
  (render s ≠ None →
     render s = Some banner ∧
     buttons banner =
       [ (HhandleInstallClick, None, [Text "Install"]);
         (HhandleDismiss, None, [Text "Not now"]);
         (HhandleDismiss, Some "Dismiss install prompt", [IconX]) ] ∧
     ∀ w, hooks w = s →
       showInstallBanner (hooks (onClickOf HhandleDismiss w).2) = false ∧
       (∀ h, deferredPrompt s = Some h → awaitedOutcome h = Fulfilled accepted →
             showInstallBanner (hooks (onClickOf HhandleInstallClick w).2) = false) ∧
       nativePrompts (onClickOf HhandleInstallClick w).2 = S (nativePrompts w) ∧
       nativePrompts (onClickOf HhandleDismiss w).2 = nativePrompts w).
Proof.
  split; [apply render_None|].
  intros Hr. split; [by apply render_Some|]. split; [reflexivity|].
  intros w <-. cbn [onClickOf].
  assert (∃ h, deferredPrompt (hooks w) = Some h) as [h Hh].
  { destruct (deferredPrompt (hooks w)) as [h|] eqn:Hd; [by exists h|].
    destruct Hr. apply render_None. auto. }
  split; [by rewrite handleDismiss_hooks|]. split; [|split].
  - intros h' Hh' Hacc. by apply (handleInstallClick_accepted w h').
  - unfold handleInstallClick, read_deferredPrompt. cbv [mbind Eff_bind mret Eff_ret].
    rewrite Hh, handleInstallClick_try_split, handleInstallClick_settle_nativePrompts.
    reflexivity.
  - run_handler. by destruct (health (localStorage w)).
Qed.

Lemma render_contract_witness :
  render (hooks (worldOf (Some acceptingHandle) true emptyStore)) = Some banner ∧
  showInstallBanner
    (hooks (onClickOf HhandleInstallClick (worldOf (Some acceptingHandle) true emptyStore)).2)
    = false.
Proof.
  pose proof (proj2 (render_contract (hooks (worldOf (Some acceptingHandle) true emptyStore))))
    as Hc.
  destruct Hc as (Hr & _ & Hw); [discriminate|].
  split; [exact Hr|].
  apply (proj1 (proj2 (Hw (worldOf (Some acceptingHandle) true emptyStore) eq_refl))
           acceptingHandle); reflexivity.
Defined.

(** C7. Mounted where the platform reports the standalone display mode or
    the iOS standalone flag, the effect sets [isInstalled], registers no
    listener and returns no cleanup, and the component renders nothing; an
    event dispatched later finds no listener and leaves the world as it is,
    and every state the controller can reach is the state right after the
    mount, in which nothing is rendered. *)
Theorem standalone_is_inert (pf : Platform) (ls : Storage) :
  standalone pf →
  (useEffect_setup pf (freshWorld ls)).1 = Normal false ∧
  isInstalled (hooks (mount pf ls)) = true ∧
  listeners (mount pf ls) = [] ∧
  render (hooks (mount pf ls)) = None ∧
  (∀ ev, dispatchEvent ev (mount pf ls) = mount pf ls) ∧
  (∀ evs, run (map Dispatch evs) (start pf ls) = Some (start pf ls)) ∧
  (∀ tr c, run tr (start pf ls) = Some c → c = start pf ls ∧ rendered c = None).
Proof.
  intros Hs.
  assert (∀ ev, dispatchEvent ev (mount pf ls) = mount pf ls) as Hdisp.
  { intros ev. by rewrite (mount_standalone pf ls Hs). }
  split.
  { unfold useEffect_setup. destruct Hs as [-> | ->]; [done|]. by rewrite orb_true_r. }
  rewrite (mount_standalone pf ls Hs) at 1 2 3. do 3 (split; [done|]).
  split; [done|]. split.
  - intros evs. induction evs as [|ev evs IH]; [done|].
    cbn [map run exec]. unfold start at 1. cbn [world awaiting]. by rewrite Hdisp.
  - intros tr c Hrun. rewrite (run_standalone pf ls tr c Hs Hrun). split; [done|].
    unfold rendered, start. cbn [world]. by rewrite (mount_standalone pf ls Hs).
Qed.

Lemma standalone_is_inert_witness :
  listeners (mount standaloneWindow emptyStore) = [] ∧
  listeners (mount iosHomeScreen emptyStore) = [] ∧
  run [Dispatch (beforeinstallprompt acceptingHandle); Dispatch appinstalled]
      (start standaloneWindow emptyStore) = Some (start standaloneWindow emptyStore).
Proof.
  split; [|split].
  - apply (standalone_is_inert standaloneWindow emptyStore). by left.
  - apply (standalone_is_inert iosHomeScreen emptyStore). by right.
  - apply (proj1 (proj2 (proj2 (proj2 (proj2 (proj2
             (standalone_is_inert standaloneWindow emptyStore (or_introl eq_refl)))))))
           [beforeinstallprompt acceptingHandle; appinstalled]).
Defined.

(** *** After the native prompt *)

Lemma exec_keeps_handle_empty lb c c' :
  isInstallabilitySignal lb = false →
  exec lb c = Some c' →
  deferredPrompt (hooks (world c)) = None → deferredPrompt (hooks (world c')) = None.
Proof.
  destruct lb as [[e|]| | |i]; cbn [exec isInstallabilitySignal]; intros Hsig Hex Hd;
    try discriminate Hsig.
  - simplify_eq. cbn [world].
    apply (dispatchEvent_preserves (λ w', deferredPrompt (hooks w') = None)); [|done].
    intros [] w' Hw'; [done|]. by cbn.
  - destruct (clickable _ _); [|done]. rewrite Hd in Hex. by simplify_eq.
  - destruct (clickable _ _); [|done]. simplify_eq. cbn [world].
    by rewrite handleDismiss_hooks.
  - destruct (awaiting c !! i) as [h|]; [|done]. simplify_eq. cbn [world].
    run_handler. destruct (prompt h) as [[]|err]; [|done].
    destruct (userChoice h) as [[[] plat]|err]; done.
Qed.

Lemma run_keeps_handle_empty tr c c' :
  forallb (λ lb, negb (isInstallabilitySignal lb)) tr = true →
  run tr c = Some c' →
  deferredPrompt (hooks (world c)) = None → deferredPrompt (hooks (world c')) = None.
Proof.
  revert c. induction tr as [|lb tr IH]; intros c; cbn [run forallb].
  - by intros _ [= <-].
  - intros [Hlb Htr]%andb_prop. destruct (exec lb c) as [c1|] eqn:Hex; [|done].
    intros Hrun Hd. apply (IH c1 Htr Hrun).
    apply (exec_keeps_handle_empty lb c c1); [by apply negb_true_iff|done..].
Qed.

(** C9, as stated, fails: the prompt is dismissed, the banner is gone, and
    the next installability signal brings it back in the same session. *)
Lemma banner_returns_counterexample :
  rendered <$> run [Dispatch (beforeinstallprompt dismissingHandle); ClickInstall; Settle 0]
                   (start browserTab emptyStore) = Some None ∧
  rendered <$> run [Dispatch (beforeinstallprompt dismissingHandle); ClickInstall; Settle 0;
                    Dispatch (beforeinstallprompt dismissingHandle)]
                   (start browserTab emptyStore) = Some (Some banner).
Proof. split; vm_compute; reflexivity. Qed.

(** C9, amended. When [handleInstallClick] completes with outcome
    "dismissed" from a state in which the banner shows, the banner flag is
    still true and the handle is empty, so nothing is rendered.  Whatever
    the outcome, nothing is rendered in any later state as long as no
    further installability signal is dispatched. *)
Theorem install_click_hides_banner (w : World) (h : BeforeInstallPromptEvent) (o : Outcome) :
  deferredPrompt (hooks w) = Some h →
  awaitedOutcome h = Fulfilled o →
  (o = dismissed → showInstallBanner (hooks w) = true →
     showInstallBanner (hooks (handleInstallClick w).2) = true) ∧
  deferredPrompt (hooks (handleInstallClick w).2) = None ∧
  render (hooks (handleInstallClick w).2) = None ∧
  (∀ aw tr c,
     forallb (λ lb, negb (isInstallabilitySignal lb)) tr = true →
     run tr {| world := (handleInstallClick w).2; awaiting := aw |} = Some c →
     rendered c = None).
Proof.
  intros Hdp Hout.
  destruct (handleInstallClick_fulfilled w h o Hdp Hout) as [Hnone Hsame].
  split; [|split; [done|split]].
  - intros Ho Hb. by rewrite (Hsame Ho).
  - by apply render_no_handle.
  - intros aw tr c Htr Hrun. apply render_no_handle.
    by apply (run_keeps_handle_empty tr _ _ Htr Hrun).
Qed.

Lemma install_click_hides_banner_witness :
  showInstallBanner
    (hooks (handleInstallClick (worldOf (Some dismissingHandle) true emptyStore)).2) = true ∧
  render (hooks (handleInstallClick (worldOf (Some dismissingHandle) true emptyStore)).2) = None.
Proof.
  pose proof (install_click_hides_banner (worldOf (Some dismissingHandle) true emptyStore)
                dismissingHandle dismissed eq_refl eq_refl) as (Hb & _ & Hr & _).
  split; [exact (Hb eq_refl eq_refl) | exact Hr].
Defined.

End PWAInstallFacts.

(** ** Properties of the repository browser *)

Module GitHubOrgFacts.

Import GitHubOrg GitHubOrgExamples.

(** *** Substrings *)

Lemma prefix_spec (sub s : string) :
  String.prefix sub s = true ↔ ∃ post, s = sub ++ post.
Proof.
  revert s. induction sub as [|a sub IH]; intros s.
  - split; [intros _; by exists s|by destruct s].
  - destruct s as [|b s]; cbn.
    + split; [done|]. intros [post Hpost]. discriminate Hpost.
    + destruct (Ascii.ascii_dec a b) as [->|Hne].
      * rewrite IH. split; intros [post Hpost]; exists post.
        -- by rewrite Hpost.
        -- cbn in Hpost. by injection Hpost.
      * split; [done|]. intros [post Hpost]. cbn in Hpost. injection Hpost as Hab _. done.
Qed.

Lemma includes_spec (s sub : string) :
  includes s sub = true ↔ isSubstring sub s.
Proof.
  unfold isSubstring. induction s as [|b s IH]; cbn [includes].
  - rewrite orb_false_r, prefix_spec. split.
    + intros [post Hpost]. by exists "", post.
    + intros (pre & post & Hs). destruct pre; [by exists post|discriminate Hs].
  - rewrite orb_true_iff, prefix_spec, IH. split.
    + intros [[post Hpost]|(pre & post & Hs)].
      * by exists "", post.
      * exists (String b pre), post. by rewrite Hs.
    + intros (pre & post & Hs). destruct pre as [|c pre].
      * left. by exists post.
      * right. exists pre, post. injection Hs as _ Hs. exact Hs.
Qed.

(** *** Sorting *)

Lemma sortsBefore_stars (a b : Repository) :
  sortsBefore (λ a b, stargazers_count b - stargazers_count a)%Z a b ↔ atLeastAsStarred a b.
Proof. unfold sortsBefore, atLeastAsStarred. lia. Qed.

Lemma Sorted_adjacent {A} (R : relation A) (l : list A) (i : nat) (a b : A) :
  Sorted R l → l !! i = Some a → l !! S i = Some b → R a b.
Proof.
  intros Hs. revert i. induction Hs as [|x l Hs IH Hhd]; intros i Ha Hb; [done|].
  destruct i as [|i]; cbn in *.
  - simplify_eq. destruct Hhd as [|y l' Hxy]; cbn in *; by simplify_eq.
  - by apply (IH i).
Qed.

Lemma StronglySorted_weaken {A} (R1 R2 : relation A) (l : list A) :
  (∀ a b, R1 a b → R2 a b) → StronglySorted R1 l → StronglySorted R2 l.
Proof.
  intros Himp. induction 1 as [|x l Hs IH Hall]; constructor; [done|].
  eapply Forall_impl; [exact Hall|]. intros y. apply Himp.
Qed.

Lemma sortsBefore_stars_total :
  Total (sortsBefore (λ a b : Repository, stargazers_count b - stargazers_count a)%Z).
Proof. intros a b. unfold sortsBefore. lia. Qed.

Lemma sortsBefore_stars_trans :
  Transitive (sortsBefore (λ a b : Repository, stargazers_count b - stargazers_count a)%Z).
Proof. intros a b c. unfold sortsBefore. lia. Qed.

(** The sort gives a permutation of its argument. *)
Lemma insertSorted_Permutation {A} (compareFn : A → A → Z) (x : A) (l : list A) :
  insertSorted compareFn x l ≡ₚ x :: l.
Proof.
  induction l as [|y l IH]; cbn [insertSorted]; [done|].
  case_decide; [done|]. rewrite IH. apply perm_swap.
Qed.

Lemma sort_Permutation {A} (compareFn : A → A → Z) (l : list A) :
  sort compareFn l ≡ₚ l.
Proof.
  unfold sort. induction l as [|x l IH]; cbn [foldr]; [done|].
  by rewrite insertSorted_Permutation, IH.
Qed.

(** For a comparison that is total and transitive, it gives a sorted list. *)
Lemma insertSorted_StronglySorted {A} (compareFn : A → A → Z) (x : A) (l : list A) :
  Transitive (sortsBefore compareFn) → Total (sortsBefore compareFn) →
  StronglySorted (sortsBefore compareFn) l →
  StronglySorted (sortsBefore compareFn) (insertSorted compareFn x l).
Proof.
  intros Htrans Htotal. induction 1 as [|y l Hs IH Hall]; cbn [insertSorted].
  - repeat constructor.
  - case_decide as Hxy.
    + constructor; [by constructor|]. constructor; [done|].
      eapply Forall_impl; [exact Hall|]. intros z Hyz. by etrans.
    + constructor; [done|].
      rewrite (insertSorted_Permutation compareFn x l). constructor; [|done].
      by destruct (Htotal x y).
Qed.

Lemma sort_StronglySorted {A} (compareFn : A → A → Z) (l : list A) :
  Transitive (sortsBefore compareFn) → Total (sortsBefore compareFn) →
  StronglySorted (sortsBefore compareFn) (sort compareFn l).
Proof.
  intros Htrans Htotal. unfold sort. induction l as [|x l IH]; cbn [foldr].
  - constructor.
  - by apply insertSorted_StronglySorted.
Qed.

(** It is stable: the elements of a class that the comparison cannot tell
    apart come out in the order they went in. *)
Lemma insertSorted_filter {A} (compareFn : A → A → Z)
    (Q : A → Prop) `{∀ y, Decision (Q y)} (x : A) (l : list A) :
  (∀ y, Q x → Q y → sortsBefore compareFn x y) →
  filter Q (insertSorted compareFn x l) = filter Q (x :: l).
Proof.
  intros Hclass. induction l as [|y l IH]; cbn [insertSorted]; [done|].
  case_decide as Hxy; [done|].
  rewrite filter_cons, IH, !filter_cons.
  destruct (decide (Q y)) as [Hy|Hy]; [|done].
  destruct (decide (Q x)) as [Hx|Hx]; [|done].
  destruct Hxy. by apply Hclass.
Qed.

Lemma sort_filter {A} (compareFn : A → A → Z)
    (Q : A → Prop) `{∀ y, Decision (Q y)} (l : list A) :
  (∀ x y, Q x → Q y → sortsBefore compareFn x y) →
  filter Q (sort compareFn l) = filter Q l.
Proof.
  intros Hclass. unfold sort. induction l as [|x l IH]; cbn [foldr]; [done|].
  rewrite insertSorted_filter by (intros y; apply Hclass).
  by rewrite !filter_cons, IH.
Qed.

Lemma filteredRepos_Permutation (reposData : list Repository) :
  filteredRepos reposData ≡ₚ
  List.filter (λ repo, negb (includes (name repo) ".github")) reposData.
Proof. unfold filteredRepos. apply sort_Permutation. Qed.

Lemma filteredRepos_Sorted (reposData : list Repository) :
  StronglySorted atLeastAsStarred (filteredRepos reposData).
Proof.
  unfold filteredRepos.
  apply (StronglySorted_weaken
           (sortsBefore (λ a b, stargazers_count b - stargazers_count a)%Z)).
  { intros a b. apply sortsBefore_stars. }
  apply sort_StronglySorted; [apply sortsBefore_stars_trans|apply sortsBefore_stars_total].
Qed.

Lemma fetchData_ready orgFetch orgResponse orgData reposFetch reposResponse reposData s :
  orgFetch = Fulfilled orgResponse → ok orgResponse = true →
  json orgResponse = Fulfilled orgData →
  reposFetch = Fulfilled reposResponse → ok reposResponse = true →
  json reposResponse = Fulfilled reposData →
  fetchData orgFetch reposFetch s =
  (Normal tt, {| org := Some orgData; repos := filteredRepos reposData;
                 loading := false; error := error s |}).
Proof.
  intros -> Hok1 Hj1 -> Hok2 Hj2. unfold fetchData.
  cbv [try_finally try_catch mbind mret Eff_bind Eff_ret await throw
       setLoading setOrg setRepos setError].
  rewrite Hok1, Hj1, Hok2, Hj2. reflexivity.
Qed.

(** C8. The list the browser keeps is made of exactly the repositories of
    the response whose name does not contain ".github", each as often as the
    response has it, and it is in descending order of [stargazers_count]:
    every element has at least as many stars as the next one, and as every
    later one.  This list is what [fetchData] stores when both requests
    succeed. *)
Theorem filteredRepos_spec (reposData : list Repository) :
  filteredRepos reposData ≡ₚ
    List.filter (λ repo, negb (includes (name repo) ".github")) reposData ∧
  (∀ repo, repo ∈ filteredRepos reposData ↔
           repo ∈ reposData ∧ ¬ isSubstring ".github" (name repo)) ∧
  (∀ i a b, filteredRepos reposData !! i = Some a →
            filteredRepos reposData !! S i = Some b →
            (stargazers_count b ≤ stargazers_count a)%Z) ∧
  StronglySorted atLeastAsStarred (filteredRepos reposData) ∧
  (∀ orgResponse orgData reposResponse s,
     ok orgResponse = true → json orgResponse = Fulfilled orgData →
     ok reposResponse = true → json reposResponse = Fulfilled reposData →
     repos (fetchData (Fulfilled orgResponse) (Fulfilled reposResponse) s).2
       = filteredRepos reposData).
Proof.
  split; [apply filteredRepos_Permutation|]. split; [|split; [|split]].
  - intros repo. rewrite (filteredRepos_Permutation reposData).
    rewrite !list_elem_of_In, filter_In, negb_true_iff, <- not_true_iff_false.
    by rewrite includes_spec.
  - intros i a b Ha Hb.
    apply (Sorted_adjacent atLeastAsStarred (filteredRepos reposData) i a b); [|done..].
    apply StronglySorted_Sorted, filteredRepos_Sorted.
  - apply filteredRepos_Sorted.
  - intros orgResponse orgData reposResponse s Hok1 Hj1 Hok2 Hj2.
    by rewrite (fetchData_ready _ orgResponse orgData _ reposResponse reposData s
                  eq_refl Hok1 Hj1 eq_refl Hok2 Hj2).
Qed.

Lemma filteredRepos_spec_witness :
  name <$> repos (fetchData (okResponse sampleOrg) (okResponse sampleRepos) initialBrowserState).2
    = ["tools"; "cli"; "boringcode.dev"; "notes"] ∧
  (stargazers_count (repoOf "cli" 5) ≤ stargazers_count (repoOf "tools" 7))%Z.
Proof.
  split.
  - unfold okResponse.
    rewrite (proj2 (proj2 (proj2 (proj2 (filteredRepos_spec sampleRepos))))
               {| ok := true; json := Fulfilled sampleOrg |} sampleOrg
               {| ok := true; json := Fulfilled sampleRepos |} initialBrowserState
               eq_refl eq_refl eq_refl eq_refl).
    vm_compute. reflexivity.
  - apply (proj1 (proj2 (proj2 (filteredRepos_spec sampleRepos))) 0%nat);
      vm_compute; reflexivity.
Defined.

End GitHubOrgFacts.

(** ** Runs of the install-prompt controller *)

Module PWAInstallRunFacts.

Import PWAInstall PWAInstallExamples PWAInstallRuns PWAInstallFacts.

(** What every enabled step keeps, every run keeps. *)
Lemma run_invariant (Inv : Controller → Prop) tr c c' :
  (∀ lb c1 c2, exec lb c1 = Some c2 → Inv c1 → Inv c2) →
  run tr c = Some c' → Inv c → Inv c'.
Proof.
  intros Hstep. revert c. induction tr as [|lb tr IH]; intros c; cbn [run].
  - by intros [= <-].
  - destruct (exec lb c) as [c1|] eqn:Hex; [|done]. intros Hrun Hc.
    apply (IH c1 Hrun). by apply (Hstep lb c c1).
Qed.

Lemma invoke_localStorage l ev w : localStorage (invoke l ev w).2 = localStorage w.
Proof.
  destruct l, ev as [e|]; unfold invoke; run_handler; try reflexivity.
  destruct (health (localStorage w)); try reflexivity; by destruct (falsy _).
Qed.

Lemma invoke_nativePrompts l ev w : nativePrompts (invoke l ev w).2 = nativePrompts w.
Proof.
  destruct l, ev as [e|]; unfold invoke; run_handler; try reflexivity.
  destruct (health (localStorage w)); try reflexivity; by destruct (falsy _).
Qed.

Lemma handleInstallClick_settle_localStorage h w :
  localStorage (handleInstallClick_settle h w).2 = localStorage w.
Proof.
  run_handler. destruct (prompt h) as [[]|e]; [|reflexivity].
  destruct (userChoice h) as [[[] plat]|e]; reflexivity.
Qed.

(** The settling of a prompt writes nothing but [false] to the banner flag
    and nothing but [null] to the handle. *)
Lemma handleInstallClick_settle_hooks h w :
  isInstalled (hooks (handleInstallClick_settle h w).2) = isInstalled (hooks w) ∧
  (showInstallBanner (hooks (handleInstallClick_settle h w).2) = false ∨
   showInstallBanner (hooks (handleInstallClick_settle h w).2) = showInstallBanner (hooks w)) ∧
  (deferredPrompt (hooks (handleInstallClick_settle h w).2) = None ∨
   deferredPrompt (hooks (handleInstallClick_settle h w).2) = deferredPrompt (hooks w)).
Proof.
  run_handler. destruct (prompt h) as [[]|e]; [|auto].
  destruct (userChoice h) as [[[] plat]|e]; cbn; auto.
Qed.




(** *** What happens to the store *)

Lemma exec_storage lb c c' :
  exec lb c = Some c' →
  localStorage (world c') = localStorage (world c) ∨
  (health (localStorage (world c)) = Healthy ∧
   localStorage (world c') =
     {| items := <[dismissedKey := "true"]> (items (localStorage (world c)));
        health := Healthy |}).
Proof.
  destruct lb as [ev| | |i]; cbn [exec]; intros Hex.
  - left. simplify_eq. cbn [world].
    apply (dispatchEvent_preserves (λ w, localStorage w = localStorage (world c))); [|done].
    intros l w' <-. apply invoke_localStorage.
  - left. destruct (clickable _ _); [|done]. destruct (deferredPrompt _); by simplify_eq.
  - destruct (clickable _ _); [|done]. simplify_eq. cbn [world]. run_handler.
    destruct (health (localStorage (world c))) eqn:Hh; cbn; auto.
  - left. destruct (awaiting c !! i); [|done]. simplify_eq. cbn [world].
    apply handleInstallClick_settle_localStorage.
Qed.

Lemma run_health tr c c' :
  run tr c = Some c' →
  health (localStorage (world c')) = health (localStorage (world c)).
Proof.
  intros Hrun.
  apply (run_invariant
           (λ c1, health (localStorage (world c1)) = health (localStorage (world c)))
           tr c c'); [|done..].
  intros lb c1 c2 Hex <-.
  destruct (exec_storage lb c1 c2 Hex) as [->|[Hh ->]]; [done|]. by rewrite Hh.
Qed.

Lemma run_items tr c c' :
  run tr c = Some c' →
  items (localStorage (world c')) = items (localStorage (world c)) ∨
  items (localStorage (world c')) =
    <[dismissedKey := "true"]> (items (localStorage (world c))).
Proof.
  intros Hrun.
  apply (run_invariant
           (λ c1, items (localStorage (world c1)) = items (localStorage (world c)) ∨
                  items (localStorage (world c1)) =
                    <[dismissedKey := "true"]> (items (localStorage (world c))))
           tr c c'); [|done|by left].
  intros lb c1 c2 Hex Hc1.
  destruct (exec_storage lb c1 c2 Hex) as [->|[Hh ->]]; [done|]. cbn [items].
  destruct Hc1 as [->| ->]; [by right|]. right. apply insert_insert_eq.
Qed.

(** *** A store that suppresses the banner *)

Lemma clickable_shown hd s : clickable hd s = true → showInstallBanner s = true.
Proof.
  unfold clickable, render. destruct (isInstalled s), (showInstallBanner s); cbn; done.
Qed.

Lemma invoke_suppressed l ev w :
  suppressing (localStorage w) ∧ showInstallBanner (hooks w) = false →
  suppressing (localStorage (invoke l ev w).2) ∧
  showInstallBanner (hooks (invoke l ev w).2) = false.
Proof.
  intros [Hsup Hb]. rewrite invoke_localStorage. split; [done|].
  unfold suppressing in Hsup.
  destruct l, ev as [e|]; unfold invoke; run_handler; try done.
  destruct (health (localStorage w)); try done; by rewrite Hsup.
Qed.

Lemma exec_suppressed lb c c' :
  exec lb c = Some c' →
  suppressing (localStorage (world c)) ∧ showInstallBanner (hooks (world c)) = false →
  suppressing (localStorage (world c')) ∧ showInstallBanner (hooks (world c')) = false.
Proof.
  destruct lb as [ev| | |i]; cbn [exec]; intros Hex [Hsup Hb].
  - simplify_eq. cbn [world].
    apply (dispatchEvent_preserves
             (λ w, suppressing (localStorage w) ∧ showInstallBanner (hooks w) = false));
      [|done].
    intros l w'. apply invoke_suppressed.
  - destruct (clickable _ _) eqn:Hc; [|done].
    apply clickable_shown in Hc. congruence.
  - destruct (clickable _ _) eqn:Hc; [|done].
    apply clickable_shown in Hc. congruence.
  - destruct (awaiting c !! i) as [h|]; [|done]. simplify_eq. cbn [world].
    rewrite handleInstallClick_settle_localStorage. split; [done|].
    destruct (handleInstallClick_settle_hooks h (world c)) as (_ & [Hf|Hs] & _);
      congruence.
Qed.

Lemma run_suppressed tr c c' :
  run tr c = Some c' →
  suppressing (localStorage (world c)) → showInstallBanner (hooks (world c)) = false →
  suppressing (localStorage (world c')) ∧ showInstallBanner (hooks (world c')) = false ∧
  rendered c' = None.
Proof.
  intros Hrun Hsup Hb.
  destruct (run_invariant
              (λ c1, suppressing (localStorage (world c1)) ∧
                     showInstallBanner (hooks (world c1)) = false) tr c c')
    as [Hsup' Hb']; [apply exec_suppressed|done|done|].
  split; [done|]. split; [done|]. apply render_None. auto.
Qed.

Lemma start_hidden pf ls :
  localStorage (world (start pf ls)) = ls ∧
  showInstallBanner (hooks (world (start pf ls))) = false.
Proof.
  unfold start. cbn [world]. destruct (decide (standalone pf)) as [Hs|Hns].
  - by rewrite (mount_standalone pf ls Hs).
  - by rewrite (mount_browser pf ls Hns).
Qed.

(** X2. A session that starts with a non-empty value under the dismissal
    key never shows the banner: in every state the controller reaches the
    banner flag is false and nothing is rendered, whatever is dispatched,
    and the value under the key is still non-empty. *)
Theorem recorded_dismissal_hides_session
    (pf : Platform) (ls : Storage) (v : string) (tr : list Label) (c : Controller) :
  items ls !! dismissedKey = Some v → v ≠ "" →
  run tr (start pf ls) = Some c →
  showInstallBanner (hooks (world c)) = false ∧
  rendered c = None ∧
  ∃ v', items (localStorage (world c)) !! dismissedKey = Some v' ∧ v' ≠ "".
Proof.
  intros Hv Hne Hrun. destruct (start_hidden pf ls) as [Hls Hb].
  destruct (run_suppressed tr _ _ Hrun) as (_ & Hb' & Hr); [|done|].
  { rewrite Hls. unfold suppressing, getItem.
    destruct (health ls); try done; rewrite Hv; by destruct v. }
  split; [done|]. split; [done|].
  destruct (run_items tr _ _ Hrun) as [-> | ->]; rewrite Hls.
  - by exists v.
  - exists "true". by rewrite lookup_insert_eq.
Qed.

Lemma recorded_dismissal_hides_session_witness :
  rendered <$> run [Dispatch (beforeinstallprompt acceptingHandle)]
                   (start browserTab dismissedStore) = Some None.
Proof.
  pose proof (recorded_dismissal_hides_session browserTab dismissedStore "true"
                [Dispatch (beforeinstallprompt acceptingHandle)]
                {| world := dispatchEvent (beforeinstallprompt acceptingHandle)
                              (mount browserTab dismissedStore);
                   awaiting := [] |}) as H.
  destruct H as (_ & Hr & _).
  - vm_compute. reflexivity.
  - discriminate.
  - reflexivity.
  - cbn [run exec fmap option_fmap option_map start world awaiting]. by rewrite Hr.
Defined.

(** X3. A dismissal on a working store is remembered: after
    [handleDismiss] the value under the key reads "true"; nothing is
    rendered in any later state of the session, and nothing in any state of
    a later session that mounts on the store the call left. *)
Theorem dismissal_is_remembered (w : World) :
  health (localStorage w) = Healthy →
  getItem dismissedKey (localStorage (handleDismiss w).2) = Normal (Some "true") ∧
  (∀ aw tr c, run tr {| world := (handleDismiss w).2; awaiting := aw |} = Some c →
              rendered c = None) ∧
  (∀ pf tr c, run tr (start pf (localStorage (handleDismiss w).2)) = Some c →
              rendered c = None).
Proof.
  intros Hh.
  assert (getItem dismissedKey (localStorage (handleDismiss w).2) = Normal (Some "true"))
    as Hget.
  { run_handler. rewrite Hh. cbn. by rewrite lookup_insert_eq. }
  assert (suppressing (localStorage (handleDismiss w).2)) as Hsup.
  { unfold suppressing. by rewrite Hget. }
  split; [done|]. split.
  - intros aw tr c Hrun. apply (run_suppressed tr _ _ Hrun); cbn [world]; [done|].
    by rewrite handleDismiss_hooks.
  - intros pf tr c Hrun. destruct (start_hidden pf (localStorage (handleDismiss w).2))
      as [Hls Hb].
    apply (run_suppressed tr _ _ Hrun); [by rewrite Hls|done].
Qed.

Lemma dismissal_is_remembered_witness :
  rendered <$> run [Dispatch (beforeinstallprompt acceptingHandle)]
    (start browserTab
       (localStorage (handleDismiss (worldOf (Some acceptingHandle) true emptyStore)).2))
  = Some None.
Proof.
  pose proof (proj2 (proj2 (dismissal_is_remembered
                              (worldOf (Some acceptingHandle) true emptyStore) eq_refl))
                browserTab [Dispatch (beforeinstallprompt acceptingHandle)]) as H.
  cbn [run exec] in H. cbn [run exec fmap option_fmap option_map].
  by rewrite (H _ eq_refl).
Defined.

(** X4. A store the user agent denies access to: the installability
    listener stores the handle and then throws at the read, leaving the
    banner flag alone; [handleDismiss] hides the banner and then throws at
    the write; and nothing is rendered in any state of a session mounted on
    such a store. *)
Theorem denied_storage_never_shows (w : World) (e : BeforeInstallPromptEvent) :
  health (localStorage w) = AccessDenied →
  handleBeforeInstallPrompt e w =
    (Throw SecurityError,
     {| hooks := {| deferredPrompt := Some (preventDefault e);
                    showInstallBanner := showInstallBanner (hooks w);
                    isInstalled := isInstalled (hooks w) |};
        localStorage := localStorage w; console := console w;
        listeners := listeners w; nativePrompts := nativePrompts w |}) ∧
  (handleDismiss w).1 = Throw SecurityError ∧
  showInstallBanner (hooks (handleDismiss w).2) = false ∧
  (∀ pf tr c, run tr (start pf (localStorage w)) = Some c → rendered c = None).
Proof.
  intros Hh. split; [|split; [|split]].
  - run_handler. by rewrite Hh.
  - run_handler. by rewrite Hh.
  - by rewrite handleDismiss_hooks.
  - intros pf tr c Hrun. destruct (start_hidden pf (localStorage w)) as [Hls Hb].
    apply (run_suppressed tr _ _ Hrun); [|done].
    rewrite Hls. unfold suppressing, getItem. by rewrite Hh.
Qed.

Lemma denied_storage_never_shows_witness :
  (handleBeforeInstallPrompt acceptingHandle
     (worldOf None false (storeOf ∅ AccessDenied))).1 = Throw SecurityError.
Proof.
  by rewrite (proj1 (denied_storage_never_shows
                       (worldOf None false (storeOf ∅ AccessDenied))
                       acceptingHandle eq_refl)).
Defined.

(** X5. A store over quota forgets the dismissal: [handleDismiss] hides the
    banner and writes nothing, so with no record under the key and the app
    not installed, the next installability signal renders the banner
    again. *)
Theorem quota_forgets_dismissal (w : World) (e : BeforeInstallPromptEvent) :
  registered w →
  health (localStorage w) = QuotaExceeded →
  items (localStorage w) !! dismissedKey = None →
  isInstalled (hooks w) = false →
  render (hooks (handleDismiss w).2) = None ∧
  localStorage (handleDismiss w).2 = localStorage w ∧
  render (hooks (dispatchEvent (beforeinstallprompt e) (handleDismiss w).2)) = Some banner.
Proof.
  intros Hreg Hh Hnone Hi.
  assert (localStorage (handleDismiss w).2 = localStorage w) as Hst.
  { run_handler. by rewrite Hh. }
  split; [|split; [done|]].
  - apply render_None. right. left. by rewrite handleDismiss_hooks.
  - rewrite dispatchEvent_beforeinstallprompt
      by (unfold registered; by rewrite handleDismiss_listeners).
    unfold render, handleBeforeInstallPrompt, localStorage_getItem, getItem.
    cbv [mbind Eff_bind mret Eff_ret setDeferredPrompt setShowInstallBanner modify_hooks].
    cbn [localStorage hooks]. rewrite Hst, Hh, Hnone. cbn.
    rewrite handleDismiss_hooks. cbn. by rewrite Hi.
Qed.

Lemma quota_forgets_dismissal_witness :
  render (hooks (dispatchEvent (beforeinstallprompt acceptingHandle)
                   (handleDismiss (worldOf (Some acceptingHandle) true fullStore)).2))
  = Some banner.
Proof.
  apply (quota_forgets_dismissal (worldOf (Some acceptingHandle) true fullStore)
           acceptingHandle); reflexivity.
Defined.

(** *** What a session writes *)

Lemma run_storage tr c c' :
  run tr c = Some c' →
  localStorage (world c') = localStorage (world c) ∨
  (health (localStorage (world c)) = Healthy ∧
   localStorage (world c') =
     {| items := <[dismissedKey := "true"]> (items (localStorage (world c)));
        health := Healthy |}).
Proof.
  intros Hrun.
  apply (run_invariant
           (λ c1, localStorage (world c1) = localStorage (world c) ∨
                  (health (localStorage (world c)) = Healthy ∧
                   localStorage (world c1) =
                     {| items := <[dismissedKey := "true"]> (items (localStorage (world c)));
                        health := Healthy |}))
           tr c c'); [|done|by left].
  intros lb c1 c2 Hex Hc1.
  destruct (exec_storage lb c1 c2 Hex) as [->|[Hh ->]]; [done|]. right.
  destruct Hc1 as [Heq|[Hh0 Heq]]; rewrite Heq in *; cbn [items health] in *.
  - done.
  - split; [done|]. by rewrite insert_insert_eq.
Qed.

(** X6. All a session ever does to [localStorage] is to set the dismissal
    key to "true": in every state the controller reaches, every other key
    reads as at mount, the dismissal key reads as at mount or "true", and a
    store that throws on writes is exactly the store the session mounted
    on. *)
Theorem storage_only_gets_the_flag
    (pf : Platform) (ls : Storage) (tr : list Label) (c : Controller) :
  run tr (start pf ls) = Some c →
  health (localStorage (world c)) = health ls ∧
  (∀ k, k ≠ dismissedKey → items (localStorage (world c)) !! k = items ls !! k) ∧
  (items (localStorage (world c)) !! dismissedKey = items ls !! dismissedKey ∨
   items (localStorage (world c)) !! dismissedKey = Some "true") ∧
  (health ls ≠ Healthy → localStorage (world c) = ls).
Proof.
  intros Hrun. destruct (start_hidden pf ls) as [Hls _].
  destruct (run_storage tr _ _ Hrun) as [Heq|[Hh Heq]]; rewrite Hls in *; rewrite Heq.
  - repeat split; auto.
  - cbn [items health]. split; [done|]. split; [|split].
    + intros k Hk. by rewrite lookup_insert_ne.
    + right. by rewrite lookup_insert_eq.
    + intros Hne. by destruct Hne.
Qed.

Lemma storage_only_gets_the_flag_witness :
  items (localStorage
           (dispatchEvent (beforeinstallprompt acceptingHandle)
              (mount browserTab emptyStore))) !! "theme" = None.
Proof.
  pose proof (proj1 (proj2 (storage_only_gets_the_flag browserTab emptyStore
             [Dispatch (beforeinstallprompt acceptingHandle)]
             {| world := dispatchEvent (beforeinstallprompt acceptingHandle)
                           (mount browserTab emptyStore);
                awaiting := [] |} eq_refl)) "theme") as H.
  cbn [world] in H. rewrite H.
  - reflexivity.
  - discriminate.
Defined.

(** *** Counting prompts *)

Lemma invoke_console l ev w : console (invoke l ev w).2 = console w.
Proof.
  destruct l, ev as [e|]; unfold invoke; run_handler; try reflexivity.
  destruct (health (localStorage w)); try reflexivity; by destruct (falsy _).
Qed.

Lemma handleInstallClick_settle_console h w :
  (length (console (handleInstallClick_settle h w).2) ≤ S (length (console w)))%nat.
Proof.
  run_handler. destruct (prompt h) as [[]|e].
  - destruct (userChoice h) as [[[] plat]|e]; cbn; rewrite ?length_app; cbn; lia.
  - cbn. rewrite length_app. cbn. lia.
Qed.

Lemma exec_counts lb c c' :
  exec lb c = Some c' →
  nativePrompts (world c') =
    nativePrompts (world c) + (if isClickInstall lb then 1 else 0) ∧
  length (awaiting c') + (if isSettle lb then 1 else 0) =
    length (awaiting c) + (if isClickInstall lb then 1 else 0) ∧
  (length (console (world c')) ≤
    length (console (world c)) + (if isSettle lb then 1 else 0))%nat.
Proof.
  destruct lb as [ev| | |i]; cbn [exec isClickInstall isSettle]; intros Hex.
  - simplify_eq. cbn [world awaiting]. split; [|split; [lia|]].
    + rewrite Nat.add_0_r.
      apply (dispatchEvent_preserves (λ w, nativePrompts w = nativePrompts (world c)));
        [|done].
      intros l w' <-. apply invoke_nativePrompts.
    + rewrite Nat.add_0_r.
      apply (dispatchEvent_preserves (λ w, (length (console w) ≤ length (console (world c)))%nat));
        [|done].
      intros l w' Hw'. by rewrite invoke_console.
  - destruct (clickable _ _) eqn:Hc; [|done].
    destruct (deferredPrompt (hooks (world c))) as [h|] eqn:Hd.
    + simplify_eq. cbn. rewrite length_app. cbn. lia.
    + unfold clickable in Hc. by rewrite (render_no_handle _ Hd) in Hc.
  - destruct (clickable _ _); [|done]. simplify_eq. cbn [world awaiting].
    run_handler. destruct (health (localStorage (world c))); cbn; lia.
  - destruct (awaiting c !! i) as [h|] eqn:Hi; [|done]. simplify_eq. cbn [world awaiting].
    rewrite handleInstallClick_settle_nativePrompts.
    pose proof (handleInstallClick_settle_console h (world c)).
    pose proof (length_delete (awaiting c) i (mk_is_Some _ _ Hi)).
    pose proof (lookup_lt_Some _ _ _ Hi). lia.
Qed.

Lemma run_counts tr c c' :
  run tr c = Some c' →
  nativePrompts (world c') = nativePrompts (world c) + countLabels isClickInstall tr ∧
  length (awaiting c') + countLabels isSettle tr =
    length (awaiting c) + countLabels isClickInstall tr ∧
  (length (console (world c')) ≤ length (console (world c)) + countLabels isSettle tr)%nat.
Proof.
  unfold countLabels. revert c. induction tr as [|lb tr IH]; intros c; cbn [run].
  - intros [= <-]. cbn. lia.
  - destruct (exec lb c) as [c1|] eqn:Hex; [|done]. intros Hrun.
    destruct (exec_counts lb c c1 Hex) as (H1 & H2 & H3).
    destruct (IH c1 Hrun) as (I1 & I2 & I3).
    cbn [List.filter]. destruct (isClickInstall lb), (isSettle lb); cbn [length]; lia.
Qed.

(** X7. One native prompt per click: in every state the mounted controller
    reaches, [prompt()] has been called as many times as "Install" was
    clicked; the calls still suspended are those clicks whose promises have
    not settled; and the console holds at most one entry per settled
    call. *)
Theorem one_prompt_per_click
    (pf : Platform) (ls : Storage) (tr : list Label) (c : Controller) :
  run tr (start pf ls) = Some c →
  nativePrompts (world c) = countLabels isClickInstall tr ∧
  length (awaiting c) + countLabels isSettle tr = countLabels isClickInstall tr ∧
  (length (console (world c)) ≤ countLabels isSettle tr)%nat.
Proof.
  intros Hrun. destruct (run_counts tr _ _ Hrun) as (H1 & H2 & H3).
  assert (nativePrompts (world (start pf ls)) = 0 ∧
          console (world (start pf ls)) = []) as [Hn Hc].
  { unfold start. cbn [world]. destruct (decide (standalone pf)) as [Hs|Hns].
    - by rewrite (mount_standalone pf ls Hs).
    - by rewrite (mount_browser pf ls Hns). }
  rewrite Hn in H1. rewrite Hc in H3. cbn in *. done.
Qed.

Lemma one_prompt_per_click_witness :
  nativePrompts
    (call_prompt (preventDefault acceptingHandle)
       (dispatchEvent (beforeinstallprompt acceptingHandle)
          (mount browserTab emptyStore))).2 = 1.
Proof.
  apply (one_prompt_per_click browserTab emptyStore
           [Dispatch (beforeinstallprompt acceptingHandle); ClickInstall]
           {| world := (call_prompt (preventDefault acceptingHandle)
                          (dispatchEvent (beforeinstallprompt acceptingHandle)
                             (mount browserTab emptyStore))).2;
              awaiting := [preventDefault acceptingHandle] |}).
  reflexivity.
Defined.

(** *** The handles the controller holds *)

Lemma invoke_prevented l ev w :
  (∀ h, deferredPrompt (hooks w) = Some h → defaultPrevented h = true) →
  ∀ h, deferredPrompt (hooks (invoke l ev w).2) = Some h → defaultPrevented h = true.
Proof.
  intros Hw. destruct l, ev as [e|]; unfold invoke; try exact Hw.
  - run_handler. destruct (health (localStorage w)); cbn;
      try destruct (falsy _); cbn; by intros h [= <-].
  - run_handler. done.
Qed.

Lemma exec_prevented lb c c' :
  exec lb c = Some c' → handlesPrevented c → handlesPrevented c'.
Proof.
  unfold handlesPrevented.
  destruct lb as [ev| | |i]; cbn [exec]; intros Hex [Hcell Haw].
  - simplify_eq. cbn [world awaiting]. split; [|done].
    apply (dispatchEvent_preserves
             (λ w, ∀ h, deferredPrompt (hooks w) = Some h → defaultPrevented h = true));
      [|done].
    intros l w'. apply invoke_prevented.
  - destruct (clickable _ _); [|done].
    destruct (deferredPrompt (hooks (world c))) as [h|] eqn:Hd; simplify_eq.
    + cbn [world awaiting call_prompt hooks snd]. split.
      * intros h' Hh'. apply Hcell. congruence.
      * apply Forall_app. split; [done|]. constructor; [by apply Hcell|constructor].
    + split; [|done]. intros h'. by rewrite Hd.
  - destruct (clickable _ _); [|done]. simplify_eq. cbn [world awaiting].
    rewrite handleDismiss_hooks. by split.
  - destruct (awaiting c !! i) as [h|]; [|done]. simplify_eq. cbn [world awaiting].
    split; [|by apply Forall_delete].
    destruct (handleInstallClick_settle_hooks h (world c)) as (_ & _ & [Hn | Hs]).
    + by rewrite Hn.
    + by rewrite Hs.
Qed.

(** X8. The default handling of every handle the mounted controller holds
    has been prevented: this is so for the handle in the state cell and for
    the handle of every suspended call, in every state it reaches. *)
Theorem held_handles_are_prevented
    (pf : Platform) (ls : Storage) (tr : list Label) (c : Controller) :
  run tr (start pf ls) = Some c → handlesPrevented c.
Proof.
  intros Hrun. apply (run_invariant handlesPrevented tr _ _ exec_prevented Hrun).
  unfold handlesPrevented, start. cbn [world awaiting]. split; [|constructor].
  destruct (decide (standalone pf)) as [Hs|Hns].
  - by rewrite (mount_standalone pf ls Hs).
  - by rewrite (mount_browser pf ls Hns).
Qed.

Lemma held_handles_are_prevented_witness :
  defaultPrevented <$>
    deferredPrompt (hooks (dispatchEvent (beforeinstallprompt acceptingHandle)
                             (mount browserTab emptyStore)))
  = Some true.
Proof.
  pose proof (proj1 (held_handles_are_prevented browserTab emptyStore
                       [Dispatch (beforeinstallprompt acceptingHandle)]
                       {| world := dispatchEvent (beforeinstallprompt acceptingHandle)
                                     (mount browserTab emptyStore);
                          awaiting := [] |} eq_refl)
                (preventDefault acceptingHandle) eq_refl) as H.
  exact (f_equal Some H).
Defined.

(** *** Once installed *)

Lemma installed_not_clickable hd s : isInstalled s = true → clickable hd s = false.
Proof. intros Hi. unfold clickable, render. by rewrite Hi. Qed.

(** X9. From a state in which [isInstalled] is true, no click is possible
    and whatever is dispatched or settles afterwards, nothing is rendered
    and [prompt()] is not called again. *)
Theorem installed_never_renders (c : Controller) (tr : list Label) (c' : Controller) :
  isInstalled (hooks (world c)) = true →
  run tr c = Some c' →
  rendered c' = None ∧
  nativePrompts (world c') = nativePrompts (world c) ∧
  countLabels isClickInstall tr = 0.
Proof.
  intros Hi Hrun.
  assert (rendered c' = None) as Hr.
  { apply render_None. left. by apply (run_isInstalled tr c c'). }
  assert (countLabels isClickInstall tr = 0) as Hcount.
  { unfold countLabels. revert c Hi Hrun.
    induction tr as [|lb tr IH]; intros c Hi; cbn [run]; [done|].
    destruct (exec lb c) as [c1|] eqn:Hex; [|done]. intros Hrun.
    pose proof (exec_isInstalled lb c c1 Hex Hi) as Hi1.
    cbn [List.filter]. destruct lb as [ev| | |i]; cbn [isClickInstall]; try by apply (IH c1).
    cbn [exec] in Hex. by rewrite (installed_not_clickable _ _ Hi) in Hex. }
  split; [done|]. split; [|done].
  destruct (run_counts tr c c' Hrun) as (Hn & _ & _). rewrite Hn, Hcount. lia.
Qed.

Lemma installed_never_renders_witness :
  rendered <$> run [Dispatch appinstalled; Dispatch (beforeinstallprompt acceptingHandle)]
                   (start browserTab emptyStore) = Some None.
Proof.
  pose proof (installed_never_renders
                {| world := dispatchEvent appinstalled (mount browserTab emptyStore);
                   awaiting := [] |}
                [Dispatch (beforeinstallprompt acceptingHandle)]
                {| world := dispatchEvent (beforeinstallprompt acceptingHandle)
                              (dispatchEvent appinstalled (mount browserTab emptyStore));
                   awaiting := [] |} eq_refl eq_refl) as (Hr & _).
  cbn [run exec fmap option_fmap option_map start world awaiting]. by rewrite Hr.
Defined.

(** *** A prompt that settles late *)

(** X10. The settling of a prompt clears the state cell, not the handle the
    click used: when a new installability signal arrives between a click on
    "Install" and the settling of its promises, the new handle is stored,
    and it is cleared when the earlier prompt is answered, whichever way;
    nothing is rendered after that. *)
Theorem late_settle_clears_new_handle
    (w : World) (h e : BeforeInstallPromptEvent) (o : Outcome) :
  registered w →
  render (hooks w) ≠ None →
  deferredPrompt (hooks w) = Some h →
  awaitedOutcome h = Fulfilled o →
  ∃ c1 c2,
    run [ClickInstall; Dispatch (beforeinstallprompt e)] {| world := w; awaiting := [] |}
      = Some c1 ∧
    deferredPrompt (hooks (world c1)) = Some (preventDefault e) ∧
    run [Settle 0] c1 = Some c2 ∧
    deferredPrompt (hooks (world c2)) = None ∧
    rendered c2 = None ∧
    awaiting c2 = [].
Proof.
  intros Hreg Hr Hd Hout.
  assert (clickable HhandleInstallClick (hooks w) = true) as Hc.
  { unfold clickable. by rewrite (render_Some _ Hr). }
  eexists _, _. cbn [run exec world awaiting]. rewrite Hc, Hd. cbn [app].
  split; [reflexivity|]. cbn [world awaiting lookup list_lookup].
  assert (registered (call_prompt h w).2) as Hreg' by done.
  rewrite (dispatchEvent_beforeinstallprompt _ e Hreg').
  assert (deferredPrompt (hooks (handleBeforeInstallPrompt e (call_prompt h w).2).2)
          = Some (preventDefault e)) as Hnew.
  { run_handler. destruct (health (localStorage w)); cbn; try done;
      by destruct (falsy _). }
  split; [done|]. split; [reflexivity|]. cbn [world awaiting].
  assert (deferredPrompt
            (hooks (handleInstallClick_settle h
                      (handleBeforeInstallPrompt e (call_prompt h w).2).2).2) = None)
    as Hnone.
  { unfold awaitedOutcome in Hout. revert Hnew.
    generalize (handleBeforeInstallPrompt e (call_prompt h w).2).2. intros w1 _.
    run_handler. destruct (prompt h) as [[]|err]; [|done].
    destruct (userChoice h) as [[[] plat]|err]; done. }
  split; [done|]. split; [|done]. by apply render_no_handle.
Qed.

Lemma late_settle_clears_new_handle_witness :
  (λ c, deferredPrompt (hooks (world c))) <$>
    run [ClickInstall; Dispatch (beforeinstallprompt acceptingHandle); Settle 0]
        {| world := worldOf (Some dismissingHandle) true emptyStore; awaiting := [] |}
  = Some None.
Proof.
  destruct (late_settle_clears_new_handle
              (worldOf (Some dismissingHandle) true emptyStore)
              dismissingHandle acceptingHandle dismissed eq_refl)
    as (c1 & c2 & H1 & _ & H2 & H3 & _).
  - discriminate.
  - reflexivity.
  - reflexivity.
  - change (run [ClickInstall; Dispatch (beforeinstallprompt acceptingHandle); Settle 0]
              {| world := worldOf (Some dismissingHandle) true emptyStore; awaiting := [] |})
      with (match run [ClickInstall; Dispatch (beforeinstallprompt acceptingHandle)]
                    {| world := worldOf (Some dismissingHandle) true emptyStore;
                       awaiting := [] |} with
            | Some c => run [Settle 0] c
            | None => None
            end).
    rewrite H1, H2. cbn. by rewrite H3.
Defined.

End PWAInstallRunFacts.

(** ** The repository browser: fetching and rendering *)

Module GitHubOrgViewFacts.

Import GitHubOrg GitHubOrgExamples GitHubOrgView GitHubOrgFacts.

(** *** fetchData *)

(** The state [fetchData] leaves, by the way its requests end. *)
Lemma fetchData_outcome orgFetch reposFetch s :
  fetchData orgFetch reposFetch s =
  (Normal tt,
   match fetched "organization" orgFetch with
   | Rejected e =>
       {| org := org s; repos := repos s; loading := false;
          error := Some (errorMessage e) |}
   | Fulfilled orgData =>
       match fetched "repositories" reposFetch with
       | Rejected e =>
           {| org := Some orgData; repos := repos s; loading := false;
              error := Some (errorMessage e) |}
       | Fulfilled reposData =>
           {| org := Some orgData; repos := filteredRepos reposData; loading := false;
              error := error s |}
       end
   end).
Proof.
  unfold fetchData, fetched.
  cbv [try_finally try_catch mbind mret Eff_bind Eff_ret await throw
       setLoading setOrg setRepos setError].
  destruct orgFetch as [[[] [orgData|e1]]|e1]; cbn; try reflexivity;
    try (by destruct e1).
  destruct reposFetch as [[[] [reposData|e2]]|e2]; cbn; try reflexivity;
    by destruct e2.
Qed.

(** X11. [fetchData] never throws and never leaves the component loading:
    however the two requests end, the call completes normally with
    [loading] false. *)
Theorem fetchData_always_settles
    (orgFetch : Settled (Response Organization))
    (reposFetch : Settled (Response (list Repository))) (s : BrowserState) :
  (fetchData orgFetch reposFetch s).1 = Normal tt ∧
  loading (fetchData orgFetch reposFetch s).2 = false.
Proof.
  rewrite fetchData_outcome. split; [done|]. cbn [snd].
  destruct (fetched "organization" orgFetch); [|done].
  by destruct (fetched "repositories" reposFetch).
Qed.

(** X12. When the organisation request fails (the fetch rejects, the
    response is not ok, or its body does not parse) the error cell gets the
    message of what was thrown, [org] and [repos] stay as they were, and
    the outcome does not depend on the repositories request. *)
Theorem org_failure_stops_fetchData
    (orgFetch : Settled (Response Organization)) (e : Thrown)
    (reposFetch reposFetch' : Settled (Response (list Repository))) (s : BrowserState) :
  fetched "organization" orgFetch = Rejected e →
  error (fetchData orgFetch reposFetch s).2 = Some (errorMessage e) ∧
  org (fetchData orgFetch reposFetch s).2 = org s ∧
  repos (fetchData orgFetch reposFetch s).2 = repos s ∧
  fetchData orgFetch reposFetch s = fetchData orgFetch reposFetch' s.
Proof. intros He. rewrite !fetchData_outcome, He. done. Qed.

Lemma org_failure_stops_fetchData_witness :
  error (afterFetch (Fulfilled {| ok := false; json := Fulfilled sampleOrg |})
                    (okResponse sampleRepos))
    = Some "Failed to fetch organization" ∧
  repos (afterFetch (Fulfilled {| ok := false; json := Fulfilled sampleOrg |})
                    (okResponse sampleRepos)) = [].
Proof.
  pose proof (org_failure_stops_fetchData
                (Fulfilled {| ok := false; json := Fulfilled sampleOrg |})
                (ErrorObject "Error" "Failed to fetch organization")
                (okResponse sampleRepos) (okResponse sampleRepos)
                initialBrowserState eq_refl) as (He & _ & Hr & _).
  split; [exact He | exact Hr].
Defined.

(** X13. When the organisation request succeeds and the repositories
    request fails, the organisation is stored all the same, [repos] stays
    as it was, and the error cell gets the message. *)
Theorem repos_failure_keeps_org
    (orgFetch : Settled (Response Organization)) (orgData : Organization)
    (reposFetch : Settled (Response (list Repository))) (e : Thrown) (s : BrowserState) :
  fetched "organization" orgFetch = Fulfilled orgData →
  fetched "repositories" reposFetch = Rejected e →
  org (fetchData orgFetch reposFetch s).2 = Some orgData ∧
  repos (fetchData orgFetch reposFetch s).2 = repos s ∧
  error (fetchData orgFetch reposFetch s).2 = Some (errorMessage e).
Proof. intros Ho Hr. rewrite !fetchData_outcome, Ho, Hr. done. Qed.

Lemma repos_failure_keeps_org_witness :
  org (afterFetch (okResponse sampleOrg) (Rejected (OtherValue "offline"))) = Some sampleOrg ∧
  error (afterFetch (okResponse sampleOrg) (Rejected (OtherValue "offline")))
    = Some "An error occurred".
Proof.
  pose proof (repos_failure_keeps_org (okResponse sampleOrg) sampleOrg
                (Rejected (OtherValue "offline")) (OtherValue "offline")
                initialBrowserState eq_refl eq_refl) as (Ho & _ & He).
  split; [exact Ho | exact He].
Defined.

(** *** The order of the cards *)

Lemma filter_Permutation_bool {A} (f : A → bool) (l1 l2 : list A) :
  l1 ≡ₚ l2 → List.filter f l1 ≡ₚ List.filter f l2.
Proof.
  induction 1 as [|x l1 l2 Hp IH|x y l|l1 l2 l3 Hp1 IH1 Hp2 IH2]; cbn.
  - done.
  - destruct (f x); [by constructor|done].
  - destruct (f x), (f y); try done. apply perm_swap.
  - by etrans.
Qed.

Lemma filteredRepos_elem_of (reposData : list Repository) (repo : Repository) :
  repo ∈ filteredRepos reposData ↔
  repo ∈ reposData ∧ ¬ isSubstring ".github" (name repo).
Proof.
  rewrite (filteredRepos_Permutation reposData).
  rewrite !list_elem_of_In, filter_In, negb_true_iff, <- not_true_iff_false.
  by rewrite includes_spec.
Qed.

(** X14. The first repository of the list is a most starred one: none of
    the repositories of the response that are kept has more stars than the
    one the list starts with. *)
Theorem first_is_most_starred
    (reposData : list Repository) (top : Repository) (rest : list Repository) :
  filteredRepos reposData = top :: rest →
  top ∈ reposData ∧
  ∀ repo, repo ∈ reposData → ¬ isSubstring ".github" (name repo) →
          (stargazers_count repo ≤ stargazers_count top)%Z.
Proof.
  intros Heq. pose proof (filteredRepos_Sorted reposData) as Hs. rewrite Heq in Hs.
  apply StronglySorted_inv in Hs as [_ Hall]. split.
  - apply (filteredRepos_elem_of reposData top). rewrite Heq. by left.
  - intros repo Hin Hkeep.
    assert (repo ∈ top :: rest) as Hin'.
    { rewrite <- Heq. by apply filteredRepos_elem_of. }
    apply elem_of_cons in Hin' as [->|Hin']; [done|].
    rewrite Forall_forall in Hall. by apply Hall.
Qed.

Lemma first_is_most_starred_witness :
  (stargazers_count (repoOf "cli" 5) ≤ stargazers_count (repoOf "tools" 7))%Z.
Proof.
  apply (proj2 (first_is_most_starred sampleRepos (repoOf "tools" 7)
                  [repoOf "cli" 5; repoOf "boringcode.dev" 3; repoOf "notes" 3]
                  ltac:(vm_compute; reflexivity))).
  - vm_compute. do 4 right. left.
  - rewrite <- includes_spec. vm_compute. discriminate.
Defined.

(** X15. The star counts shown do not depend on the order of the response:
    two responses with the same repositories in different orders give lists
    with the same sequence of star counts. *)
Theorem star_order_is_canonical (reposData reposData' : list Repository) :
  reposData ≡ₚ reposData' →
  stargazers_count <$> filteredRepos reposData =
  stargazers_count <$> filteredRepos reposData'.
Proof.
  intros Hp.
  apply (StronglySorted_unique_strong (λ a b : Z, (b ≤ a)%Z)).
  - intros x1 x2 _ _ H1 H2. lia.
  - apply (StronglySorted_fmap _ atLeastAsStarred); [done|]. apply filteredRepos_Sorted.
  - apply (StronglySorted_fmap _ atLeastAsStarred); [done|]. apply filteredRepos_Sorted.
  - apply fmap_Permutation.
    rewrite !filteredRepos_Permutation. by apply filter_Permutation_bool.
Qed.

Lemma star_order_is_canonical_witness :
  stargazers_count <$> filteredRepos (reverse sampleRepos) = [7; 5; 3; 3]%Z.
Proof.
  rewrite (star_order_is_canonical (reverse sampleRepos) sampleRepos).
  - vm_compute. reflexivity.
  - apply reverse_Permutation.
Defined.

(** A list in descending order of stars is determined by the order inside
    each class of equal stars. *)
Lemma stable_sorted_unique (l1 l2 : list Repository) :
  StronglySorted atLeastAsStarred l1 → StronglySorted atLeastAsStarred l2 →
  (∀ k, filter (λ r, stargazers_count r = k) l1 =
        filter (λ r, stargazers_count r = k) l2) →
  l1 = l2.
Proof.
  intros H1. revert l2. induction H1 as [|x l1 Hs1 IH Hall1]; intros l2 H2 Hf.
  - destruct l2 as [|y l2]; [done|].
    specialize (Hf (stargazers_count y)). by rewrite filter_cons_True in Hf.
  - destruct H2 as [|y l2 Hs2 Hall2].
    + specialize (Hf (stargazers_count x)). by rewrite filter_cons_True in Hf.
    + rewrite Forall_forall in Hall1, Hall2.
      assert (stargazers_count x ≤ stargazers_count y)%Z as Hxy.
      { assert (x ∈ y :: l2) as Hin.
        { eapply (list_elem_of_filter (λ r, stargazers_count r = stargazers_count x)).
          rewrite <- Hf, filter_cons_True by done. by left. }
        apply elem_of_cons in Hin as [->|Hin]; [done|]. by apply Hall2. }
      assert (stargazers_count y ≤ stargazers_count x)%Z as Hyx.
      { assert (y ∈ x :: l1) as Hin.
        { eapply (list_elem_of_filter (λ r, stargazers_count r = stargazers_count y)).
          rewrite Hf, filter_cons_True by done. by left. }
        apply elem_of_cons in Hin as [->|Hin]; [done|]. by apply Hall1. }
      assert (x = y) as <-.
      { specialize (Hf (stargazers_count x)).
        rewrite !filter_cons_True in Hf by lia. by injection Hf. }
      f_equal. apply IH; [done|]. intros k. specialize (Hf k).
      rewrite !filter_cons in Hf. destruct (decide (stargazers_count x = k)); [|done].
      by injection Hf.
Qed.

(** X21. Repositories with equal stars keep the order of the response: for
    every star count, the kept repositories with that count stand in the
    list in the order the response has them.  The list is the only
    arrangement in descending order of stars with this property. *)
Theorem equal_stars_keep_response_order (reposData : list Repository) :
  (∀ k, filter (λ r, stargazers_count r = k) (filteredRepos reposData) =
        filter (λ r, stargazers_count r = k)
               (List.filter (λ repo, negb (includes (name repo) ".github")) reposData)) ∧
  (∀ l, StronglySorted atLeastAsStarred l →
        (∀ k, filter (λ r, stargazers_count r = k) l =
              filter (λ r, stargazers_count r = k)
                     (List.filter (λ repo, negb (includes (name repo) ".github")) reposData)) →
        l = filteredRepos reposData).
Proof.
  assert (∀ k, filter (λ r, stargazers_count r = k) (filteredRepos reposData) =
               filter (λ r, stargazers_count r = k)
                 (List.filter (λ repo, negb (includes (name repo) ".github")) reposData))
    as Hstable.
  { intros k. unfold filteredRepos. apply sort_filter.
    intros x y Hx Hy. unfold sortsBefore. lia. }
  split; [done|]. intros l Hl Hf.
  apply stable_sorted_unique; [done|apply filteredRepos_Sorted|].
  intros k. by rewrite Hf, Hstable.
Qed.

Lemma equal_stars_keep_response_order_witness :
  name <$> filteredRepos [repoOf "a" 1; repoOf "b" 1; repoOf "c" 1] = ["a"; "b"; "c"] ∧
  name <$> filter (λ r, stargazers_count r = 3%Z) (filteredRepos sampleRepos)
    = ["boringcode.dev"; "notes"].
Proof.
  split.
  - rewrite <- (proj2 (equal_stars_keep_response_order
                         [repoOf "a" 1; repoOf "b" 1; repoOf "c" 1])
                  [repoOf "a" 1; repoOf "b" 1; repoOf "c" 1]).
    + reflexivity.
    + repeat constructor; unfold atLeastAsStarred; cbn; lia.
    + intros k. reflexivity.
  - rewrite (proj1 (equal_stars_keep_response_order sampleRepos) 3%Z).
    vm_compute. reflexivity.
Defined.

(** *** What is rendered after the fetch *)

(** X16. After a fetch in which both requests succeed the page is rendered
    with one card per kept repository: as many cards as the response has
    repositories whose name does not contain ".github", with the titles of
    exactly those, in descending order of the stars they show. *)
Theorem cards_after_success (formatDate : string → string)
    (orgFetch : Settled (Response Organization)) (orgData : Organization)
    (reposFetch : Settled (Response (list Repository))) (reposData : list Repository) :
  fetched "organization" orgFetch = Fulfilled orgData →
  fetched "repositories" reposFetch = Fulfilled reposData →
  ∃ cards,
    render formatDate (afterFetch orgFetch reposFetch) =
      ReadyView (renderHeader (Some orgData)) cards ∧
    length cards =
      length (List.filter (λ repo, negb (includes (name repo) ".github")) reposData) ∧
    (length cards ≤ length reposData)%nat ∧
    StronglySorted (λ a b, (starsText b ≤ starsText a)%Z) cards ∧
    (∀ t, t ∈ titleText <$> cards ↔
          ∃ repo, repo ∈ reposData ∧ name repo = t ∧ ¬ isSubstring ".github" t).
Proof.
  intros Ho Hr. exists (renderCard formatDate <$> filteredRepos reposData).
  split; [|split; [|split; [|split]]].
  - unfold afterFetch. rewrite fetchData_outcome, Ho, Hr. reflexivity.
  - rewrite length_fmap. apply Permutation_length, filteredRepos_Permutation.
  - rewrite length_fmap, (Permutation_length (filteredRepos_Permutation reposData)).
    apply filter_length_le.
  - apply (StronglySorted_fmap _ atLeastAsStarred); [done|]. apply filteredRepos_Sorted.
  - intros t. rewrite <- list_fmap_compose. rewrite list_elem_of_fmap. split.
    + intros (repo & -> & Hin). apply filteredRepos_elem_of in Hin as [Hin Hk].
      by exists repo.
    + intros (repo & Hin & <- & Hk). exists repo. split; [done|].
      by apply filteredRepos_elem_of.
Qed.

Lemma cards_after_success_witness :
  ∃ cards,
    render (λ d, d) (afterFetch (okResponse sampleOrg) (okResponse sampleRepos)) =
      ReadyView (renderHeader (Some sampleOrg)) cards ∧
    length cards = 4.
Proof.
  destruct (cards_after_success (λ d, d) (okResponse sampleOrg) sampleOrg
              (okResponse sampleRepos) sampleRepos eq_refl eq_refl)
    as (cards & Hr & Hl & _).
  exists cards. split; [exact Hr|]. rewrite Hl. vm_compute. reflexivity.
Defined.

(** X17. After the fetch the loading view is never rendered.  A failure
    whose message is not empty renders the error view with that message; a
    failure of the organisation request whose message is the empty string
    does not: the page is rendered as ready, with the default header and no
    card. *)
Theorem error_view_after_failure (formatDate : string → string)
    (orgFetch : Settled (Response Organization))
    (reposFetch : Settled (Response (list Repository))) :
  render formatDate (afterFetch orgFetch reposFetch) ≠ LoadingView ∧
  (∀ e, fetched "organization" orgFetch = Rejected e ∨
        (∃ orgData, fetched "organization" orgFetch = Fulfilled orgData ∧
                    fetched "repositories" reposFetch = Rejected e) →
        errorMessage e ≠ "" →
        render formatDate (afterFetch orgFetch reposFetch) =
          ErrorView ("Error: " ++ errorMessage e)) ∧
  (∀ e, fetched "organization" orgFetch = Rejected e →
        errorMessage e = "" →
        render formatDate (afterFetch orgFetch reposFetch) =
          ReadyView (renderHeader None) []).
Proof.
  unfold afterFetch. rewrite fetchData_outcome. cbn [snd]. split; [|split].
  - unfold render. destruct (fetched "organization" orgFetch); [|by destruct (falsy _)].
    destruct (fetched "repositories" reposFetch); cbn [loading]; by destruct (falsy _).
  - intros e [He|(orgData & Ho & Hr)] Hne.
    + rewrite He. unfold render. cbn. by destruct (errorMessage e).
    + rewrite Ho, Hr. unfold render. cbn. by destruct (errorMessage e).
  - intros e He Hempty. rewrite He. unfold render. cbn. by rewrite Hempty.
Qed.

Lemma error_view_after_failure_witness :
  render (λ d, d) (afterFetch (Rejected (ErrorObject "TypeError" "Failed to fetch"))
                              (okResponse sampleRepos))
    = ErrorView "Error: Failed to fetch" ∧
  render (λ d, d) (afterFetch (Rejected (ErrorObject "Error" "")) (okResponse sampleRepos))
    = ReadyView (renderHeader None) [].
Proof.
  split.
  - apply (proj1 (proj2 (error_view_after_failure (λ d, d)
                           (Rejected (ErrorObject "TypeError" "Failed to fetch"))
                           (okResponse sampleRepos)))
             (ErrorObject "TypeError" "Failed to fetch")).
    + by left.
    + discriminate.
  - apply (proj2 (proj2 (error_view_after_failure (λ d, d)
                           (Rejected (ErrorObject "Error" "")) (okResponse sampleRepos)))
             (ErrorObject "Error" "")); reflexivity.
Defined.

(** *** Cards *)

(** X18. The topics block accounts for every topic: a repository without
    topics has no block; otherwise the badges are the first topics, three at
    most, the outline badge is there exactly when there are more than three,
    and the badges shown plus the number on the outline badge make the
    number of topics. *)
Theorem topics_block_accounts_for_all (topics : list string) :
  (renderTopics topics = None ↔ topics = []) ∧
  (∀ tb, renderTopics topics = Some tb →
     topics = (shownTopics tb ++ drop 3 topics)%list ∧
     (length (shownTopics tb) ≤ 3)%nat ∧
     (moreTopics tb = None ↔ (length topics ≤ 3)%nat) ∧
     (Z.of_nat (length (shownTopics tb)) + default 0 (moreTopics tb) =
        Z.of_nat (length topics))%Z ∧
     (∀ n, moreTopics tb = Some n → (0 < n)%Z)).
Proof.
  unfold renderTopics. split.
  - destruct topics as [|t topics]; [done|]. cbn [length].
    destruct (Z.ltb_spec 0 (Z.of_nat (S (length topics)))); [done|lia].
  - intros tb. destruct (Z.ltb_spec 0 (Z.of_nat (length topics))) as [Hpos|]; [|done].
    intros [= <-]. cbn [shownTopics moreTopics].
    split; [by rewrite take_drop|]. rewrite length_take.
    destruct (Z.ltb_spec 3 (Z.of_nat (length topics))) as [Hgt|Hle]; cbn [default].
    + rewrite Nat.min_l by lia. split; [lia|]. split; [split; [done|lia]|].
      split; [cbn; lia|]. intros n [= <-]. lia.
    + rewrite Nat.min_r by lia. split; [lia|]. split; [split; [lia|done]|].
      split; [cbn; lia|]. done.
Qed.

Lemma topics_block_accounts_for_all_witness :
  renderTopics ["pwa"; "nextjs"; "tailwind"; "cli"; "shell"] =
    Some {| shownTopics := ["pwa"; "nextjs"; "tailwind"]; moreTopics := Some 2%Z |} ∧
  (Z.of_nat 3 + 2 = Z.of_nat 5)%Z.
Proof.
  split; [reflexivity|].
  apply (proj2 (topics_block_accounts_for_all ["pwa"; "nextjs"; "tailwind"; "cli"; "shell"])
           {| shownTopics := ["pwa"; "nextjs"; "tailwind"]; moreTopics := Some 2%Z |}
           eq_refl).
Defined.

Lemma orElse_nonempty (v : option string) (d : string) : d ≠ "" → orElse v d ≠ "".
Proof. intros Hd. by destruct v as [[|a s]|]. Qed.

Lemma orElse_empty (lang : string) : orElse (Some lang) "" = lang.
Proof. by destruct lang. Qed.

(** X19. [getLanguageColor] gives each of the seven languages of the table
    its own class ("bg-yellow-400" for JavaScript, "bg-blue-500" for
    TypeScript, "bg-green-500" for Shell, "bg-orange-500" for HTML,
    "bg-purple-500" for CSS, "bg-blue-600" for Python, "bg-cyan-500" for
    Go), and "bg-gray-400" for null, for the empty string and for every
    other name, names that differ only in case included, with one
    exception: for a name that every object inherits, such as
    "constructor", the lookup finds the inherited member and the fallback
    is not applied.  It never gives an empty class, and it gives the
    fallback class for no language of the table. *)
Theorem language_colour_fallback :
  getLanguageColor (Some "JavaScript") = OwnString "bg-yellow-400" ∧
  getLanguageColor (Some "TypeScript") = OwnString "bg-blue-500" ∧
  getLanguageColor (Some "Shell") = OwnString "bg-green-500" ∧
  getLanguageColor (Some "HTML") = OwnString "bg-orange-500" ∧
  getLanguageColor (Some "CSS") = OwnString "bg-purple-500" ∧
  getLanguageColor (Some "Python") = OwnString "bg-blue-600" ∧
  getLanguageColor (Some "Go") = OwnString "bg-cyan-500" ∧
  getLanguageColor None = OwnString "bg-gray-400" ∧
  getLanguageColor (Some "") = OwnString "bg-gray-400" ∧
  (∀ lang, lang ∉ ["JavaScript"; "TypeScript"; "Shell"; "HTML"; "CSS"; "Python"; "Go"] →
           lang ∉ objectPrototypeKeys →
           getLanguageColor (Some lang) = OwnString "bg-gray-400") ∧
  (∀ lang, lang ∉ objectPrototypeKeys →
     ∃ cls, getLanguageColor (Some lang) = OwnString cls ∧
            cls ≠ "" ∧
            (cls = "bg-gray-400" ↔ lang ∉ (colors.*1))) ∧
  (∀ lang, lang ∈ objectPrototypeKeys → getLanguageColor (Some lang) = Inherited lang) ∧
  (∀ language, getLanguageColor language ≠ Undefined ∧
               getLanguageColor language ≠ OwnString "").
Proof.
  assert (∀ lang, lang ∉ objectPrototypeKeys →
            ∃ cls, getLanguageColor (Some lang) = OwnString cls ∧ cls ≠ "" ∧
                   (cls = "bg-gray-400" ↔ lang ∉ (colors.*1))) as Hown.
  { intros lang Hlang. unfold getLanguageColor, colorsAt. rewrite orElse_empty.
    unfold colors. cbn [assoc fmap list_fmap fst].
    repeat match goal with
           | |- context [decide (?k = lang)] =>
               destruct (decide (k = lang)) as [<-|?];
               [eexists; split; [reflexivity|]; split; [done|]; split; [done|];
                intros Hn; destruct Hn; apply list_elem_of_In; cbn; auto 10|]
           end.
    rewrite decide_False by done. eexists. split; [reflexivity|].
    split; [done|]. split; [|done]. intros _ Hin.
    repeat (apply elem_of_cons in Hin as [Hin|Hin]; [done|]).
    by apply elem_of_nil in Hin. }
  assert (∀ lang, lang ∈ objectPrototypeKeys → getLanguageColor (Some lang) = Inherited lang)
    as Hinh.
  { intros lang Hlang. unfold getLanguageColor, colorsAt. rewrite orElse_empty.
    unfold objectPrototypeKeys in Hlang.
    repeat (apply elem_of_cons in Hlang as [->|Hlang]; [reflexivity|]).
    by apply elem_of_nil in Hlang. }
  do 9 (split; [reflexivity|]). split; [|split; [done|split; [done|]]].
  - intros lang Htable Hlang. destruct (Hown lang Hlang) as (cls & -> & _ & Hgray).
    f_equal. by apply Hgray.
  - intros [lang|]; [|done].
    destruct (decide (lang ∈ objectPrototypeKeys)) as [Hin|Hnin].
    + by rewrite (Hinh lang Hin).
    + destruct (Hown lang Hnin) as (cls & -> & Hne & _). split; [done|]. congruence.
Qed.

Lemma language_colour_fallback_witness :
  getLanguageColor (Some "typescript") = OwnString "bg-gray-400" ∧
  getLanguageColor (Some "constructor") = Inherited "constructor".
Proof.
  split.
  - apply (proj1 (proj2 (proj2 (proj2 (proj2 (proj2 (proj2 (proj2 (proj2 (proj2
             language_colour_fallback))))))))) "typescript").
    + intros Hin. repeat (apply elem_of_cons in Hin as [Hin|Hin]; [discriminate Hin|]).
      by apply elem_of_nil in Hin.
    + intros Hin. unfold objectPrototypeKeys in Hin.
      repeat (apply elem_of_cons in Hin as [Hin|Hin]; [discriminate Hin|]).
      by apply elem_of_nil in Hin.
  - apply (proj1 (proj2 (proj2 (proj2 (proj2 (proj2 (proj2 (proj2 (proj2 (proj2 (proj2
             (proj2 language_colour_fallback))))))))))) "constructor").
    by left.
Defined.

(** X20. A missing value never leaves a text of the page empty, and a
    present value is what is shown.  The description of a card is the
    repository's when it is a non-empty string and "No description
    available" when it is null or empty; the heading is the organisation's
    name when there is one and it is not empty, "BoringCode.dev" otherwise;
    the tagline is the organisation's description under the same
    condition, the default sentence otherwise; the logo is rendered, with
    the avatar address and the name in its alt text, exactly for an
    organisation with a non-empty avatar address, so "/placeholder.svg" is
    never used; the language row of a card shows the language and its
    colour for a non-empty language and is left out for null or empty. *)
Theorem texts_are_never_empty
    (formatDate : string → string) (repo : Repository) (o : option Organization) :
  (* description of a card *)
  (∀ d, description repo = Some d → d ≠ "" →
        descriptionText (renderCard formatDate repo) = d) ∧
  (description repo = None ∨ description repo = Some "" →
        descriptionText (renderCard formatDate repo) = "No description available") ∧
  descriptionText (renderCard formatDate repo) ≠ "" ∧
  (* heading *)
  (∀ og, o = Some og → org_name og ≠ "" → heading (renderHeader o) = org_name og) ∧
  (o = None ∨ (∃ og, o = Some og ∧ org_name og = "") →
        heading (renderHeader o) = "BoringCode.dev") ∧
  heading (renderHeader o) ≠ "" ∧
  (* tagline *)
  (∀ og d, o = Some og → org_description og = Some d → d ≠ "" →
        tagline (renderHeader o) = d) ∧
  (o = None ∨ (∃ og, o = Some og ∧
                     (org_description og = None ∨ org_description og = Some "")) →
        tagline (renderHeader o) = "We write the boring stuff, so you don't have to.") ∧
  tagline (renderHeader o) ≠ "" ∧
  (* logo *)
  (∀ og, o = Some og → avatar_url og ≠ "" →
        logo (renderHeader o) = Some (avatar_url og, org_name og ++ " logo")) ∧
  (o = None ∨ (∃ og, o = Some og ∧ avatar_url og = "") → logo (renderHeader o) = None) ∧
  (∀ src alt, logo (renderHeader o) = Some (src, alt) →
     src ≠ "" ∧ ∃ og, o = Some og ∧ src = avatar_url og ∧ alt = org_name og ++ " logo") ∧
  (* language row of a card *)
  (∀ lang, language repo = Some lang → lang ≠ "" →
        languageRow (renderCard formatDate repo) =
          Some (getLanguageColor (Some lang), lang)) ∧
  (languageRow (renderCard formatDate repo) = None ↔
     language repo = None ∨ language repo = Some "").
Proof.
  split; [|split; [|split]].
  { intros d Hd Hne. cbn. rewrite Hd. by destruct d. }
  { intros [Hd|Hd]; cbn; by rewrite Hd. }
  { by apply orElse_nonempty. }
  split; [|split; [|split]].
  { intros og -> Hne. cbn. by destruct (org_name og). }
  { intros [->|(og & -> & Hn)]; cbn; [done|]. by rewrite Hn. }
  { by apply orElse_nonempty. }
  split; [|split; [|split]].
  { intros og d -> Hd Hne. cbn. rewrite Hd. by destruct d. }
  { intros [->|(og & -> & [Hd|Hd])]; cbn; [done|by rewrite Hd..]. }
  { by apply orElse_nonempty. }
  split; [|split; [|split]].
  { intros og -> Hne. cbn. by destruct (avatar_url og). }
  { intros [->|(og & -> & Hu)]; cbn; [done|]. by rewrite Hu. }
  { intros src alt. destruct o as [og|]; cbn; [|done].
    destruct (avatar_url og) as [|a u] eqn:Hu; cbn; [done|].
    intros [= <- <-]. split; [done|]. exists og. by rewrite Hu. }
  split.
  { intros lang Hl Hne. cbn. rewrite Hl. by destruct lang. }
  cbn. destruct (language repo) as [[|a l]|]; cbn; split; try done; auto.
  intros [|]; done.
Qed.

Lemma texts_are_never_empty_witness :
  heading (renderHeader (Some sampleOrg)) = "BoringCode" ∧
  tagline (renderHeader (Some sampleOrg)) = "We write the boring stuff, so you don't have to." ∧
  descriptionText (renderCard (λ d, d) (repoOf "tools" 7)) = "No description available" ∧
  languageRow (renderCard (λ d, d) (repoOf "tools" 7)) =
    Some (OwnString "bg-blue-500", "TypeScript").
Proof.
  pose proof (texts_are_never_empty (λ d, d) (repoOf "tools" 7) (Some sampleOrg))
    as (_ & Hdesc & _ & Hhead & _ & _ & _ & Htag & _ & _ & _ & _ & Hlang & _).
  split; [|split; [|split]].
  - apply (Hhead sampleOrg eq_refl). discriminate.
  - apply Htag. right. exists sampleOrg. split; [reflexivity|]. by left.
  - apply Hdesc. by left.
  - apply (Hlang "TypeScript" eq_refl). discriminate.
Defined.

End GitHubOrgViewFacts.
